(** * chatDB: the resilient request decoder and the result normaliser

    A shallow embedding of [flask_api_ultra_robust.py]:
    - [fix_json_format], the five-step repair cascade over the raw request
      body (direct JSON parse, two regular-expression rewrites, direct field
      extraction, literal evaluation);
    - [execute_sql_query], which shapes what the store returns into the
      response dictionary;
    - [query_sql], the [/query] handler, and the 404/405 handlers.

    Python text is a list of Unicode code points.  Python values are the
    inductive [pyval]; a [dict] is an association list in insertion order.
    The library functions the code calls are modelled next to it:
    [json.loads] as a parser, the [re] module as a backtracking matcher run
    on the very patterns of the source, [str.replace] as a scan.
    [ast.literal_eval], the store behind [pd.read_sql_query] and the clock
    are parameters of the development. *)

From Stdlib Require Import String Ascii List NArith ZArith Bool Lia.
Import ListNotations.

Local Open Scope N_scope.
Local Open Scope list_scope.

(* ================================================================== *)
(** ** Text *)

(** A Python [str]: the sequence of its code points. *)
Definition text : Type := list N.

Definition bytes_of_string (s : string) : list N :=
  map N_of_ascii (list_ascii_of_string s).

(** Decoding of the UTF-8 bytes of a string literal of this file into code
    points (the literals are well-formed UTF-8). *)
Fixpoint utf8_decode (bs : list N) : text :=
  match bs with
  | [] => []
  | b0 :: r0 =>
    if b0 <? 128 then b0 :: utf8_decode r0
    else
      match r0 with
      | [] => []
      | b1 :: r1 =>
        if b0 <? 224 then ((b0 - 192) * 64 + (b1 - 128)) :: utf8_decode r1
        else
          match r1 with
          | [] => []
          | b2 :: r2 =>
            if b0 <? 240
            then ((b0 - 224) * 4096 + (b1 - 128) * 64 + (b2 - 128))
                   :: utf8_decode r2
            else
              match r2 with
              | [] => []
              | b3 :: r3 =>
                ((b0 - 240) * 262144 + (b1 - 128) * 4096
                 + (b2 - 128) * 64 + (b3 - 128)) :: utf8_decode r3
              end
          end
      end
  end.

Definition txt (s : string) : text := utf8_decode (bytes_of_string s).

(** Named characters. *)
Definition LF : N := 10.
Definition CR : N := 13.
Definition DQ : N := 34.        (* the double quote *)
Definition SQ : N := 39.        (* the single quote *)
Definition BSL : N := 92.       (* the backslash *)

Fixpoint text_eqb (a b : text) : bool :=
  match a, b with
  | [], [] => true
  | x :: a', y :: b' => (x =? y) && text_eqb a' b'
  | _, _ => false
  end.

(** [s.startswith(p)]; on success the rest of [s] behind [p]. *)
Fixpoint strip_prefix (p s : text) : option text :=
  match p with
  | [] => Some s
  | x :: p' =>
    match s with
    | [] => None
    | y :: s' => if x =? y then strip_prefix p' s' else None
    end
  end.

Definition starts_with (p s : text) : bool :=
  match strip_prefix p s with Some _ => true | None => false end.

(** Longest prefix of [s] whose characters satisfy [p], and what follows. *)
Fixpoint span (p : N -> bool) (s : text) : text * text :=
  match s with
  | [] => ([], [])
  | c :: s' =>
    if p c then let (a, b) := span p s' in (c :: a, b) else ([], s)
  end.

(* ================================================================== *)
(** ** Python values *)

(** A Python [float] as the literal it was read from: the double nearest to
    [(-1)^neg * m * 10^e], or one of the constants. *)
Inductive pyfloat : Type :=
| FDec (neg : bool) (m : N) (e : Z)
| FNan
| FInf (neg : bool).

Unset Elimination Schemes.
Inductive pyval : Type :=
| PyNone
| PyBool (b : bool)
| PyInt (n : Z)
| PyFloat (f : pyfloat)
| PyComplex (re im : pyfloat)
| PyStr (s : text)
| PyBytes (b : list N)
| PyList (l : list pyval)
| PyTuple (l : list pyval)
| PySet (l : list pyval)
| PyDict (d : list (pyval * pyval)).
Set Elimination Schemes.

(** A decimal literal reads as [0.0] exactly when it is at most half the
    least subnormal double, [2^-1075] (round to nearest, ties to even). *)
Definition float_is_zero (f : pyfloat) : bool :=
  match f with
  | FDec _ m e =>
    (m =? 0) ||
    (if (e <? 0)%Z
     then (Z.of_N m * 2 ^ 1075 <=? 10 ^ (- e))%Z
     else false)
  | FNan => false
  | FInf _ => false
  end.

Definition nonempty {A : Type} (l : list A) : bool :=
  match l with [] => false | _ :: _ => true end.

(** Truth value of an object, as [not x] and [if x] test it. *)
Definition truthy (v : pyval) : bool :=
  match v with
  | PyNone => false
  | PyBool b => b
  | PyInt n => negb (n =? 0)%Z
  | PyFloat f => negb (float_is_zero f)
  | PyComplex re im => negb (float_is_zero re && float_is_zero im)
  | PyStr s => nonempty s
  | PyBytes b => nonempty b
  | PyList l => nonempty l
  | PyTuple l => nonempty l
  | PySet l => nonempty l
  | PyDict d => nonempty d
  end.

(** [type(v).__name__] *)
Definition type_name (v : pyval) : text :=
  match v with
  | PyNone => txt "NoneType"
  | PyBool _ => txt "bool"
  | PyInt _ => txt "int"
  | PyFloat _ => txt "float"
  | PyComplex _ _ => txt "complex"
  | PyStr _ => txt "str"
  | PyBytes _ => txt "bytes"
  | PyList _ => txt "list"
  | PyTuple _ => txt "tuple"
  | PySet _ => txt "set"
  | PyDict _ => txt "dict"
  end.

(** *** Dictionaries with string keys *)

Definition is_key (k : text) (x : pyval) : bool :=
  match x with PyStr s => text_eqb s k | _ => false end.

(** [d.get(k)] as an option. *)
Fixpoint dict_get (k : text) (d : list (pyval * pyval)) : option pyval :=
  match d with
  | [] => None
  | (x, v) :: d' => if is_key k x then Some v else dict_get k d'
  end.

(** [d[k] = v]: an existing key keeps its place and takes the new value, a
    new key goes last. *)
Fixpoint dict_set (k : text) (v : pyval) (d : list (pyval * pyval))
  : list (pyval * pyval) :=
  match d with
  | [] => [(PyStr k, v)]
  | (x, w) :: d' =>
    if is_key k x then (x, v) :: d' else (x, w) :: dict_set k v d'
  end.

(** A dictionary display [{k1: v1, ..., kn: vn}] with string keys, also
    [dict(pairs)]. *)
Definition dict_of (kvs : list (text * pyval)) : list (pyval * pyval) :=
  fold_left (fun d kv => dict_set (fst kv) (snd kv) d) kvs [].

Definition mk_dict (kvs : list (text * pyval)) : pyval := PyDict (dict_of kvs).

(** *** Exceptions *)

(** What a call does: return a value, or raise an exception [e], kept as
    [str(e)]. *)
Inductive outcome (A : Type) : Type :=
| Return (a : A)
| Raise (msg : text).
Arguments Return {A} a.
Arguments Raise {A} msg.

(* ================================================================== *)
(** ** [json.loads]

    The decoder of the standard library with its default settings (strict
    strings, the constants [NaN], [Infinity] and [-Infinity] accepted), as
    its scanner reads the text.  [None] stands for a raised
    [JSONDecodeError].  The interpreter's recursion limit and its optional
    limit on the number of digits of an integer are not modelled. *)

Definition is_json_ws (c : N) : bool :=
  (c =? 32) || (c =? 9) || (c =? LF) || (c =? CR).

Fixpoint skip_ws (s : text) : text :=
  match s with
  | [] => []
  | c :: s' => if is_json_ws c then skip_ws s' else s
  end.

Definition is_digit (c : N) : bool := (48 <=? c) && (c <=? 57).

Definition hex_digit (c : N) : option N :=
  if (48 <=? c) && (c <=? 57) then Some (c - 48)
  else if (97 <=? c) && (c <=? 102) then Some (c - 87)
  else if (65 <=? c) && (c <=? 70) then Some (c - 55)
  else None.

Definition hex4 (a b c d : N) : option N :=
  match hex_digit a, hex_digit b, hex_digit c, hex_digit d with
  | Some x, Some y, Some z, Some w => Some (((x * 16 + y) * 16 + z) * 16 + w)
  | _, _, _, _ => None
  end.

(** The table [BACKSLASH] of the one-character escapes. *)
Definition backslash (c : N) : option N :=
  if c =? DQ then Some DQ
  else if c =? BSL then Some BSL
  else if c =? 47 then Some 47          (* / *)
  else if c =? 98 then Some 8           (* b *)
  else if c =? 102 then Some 12         (* f *)
  else if c =? 110 then Some LF         (* n *)
  else if c =? 114 then Some CR         (* r *)
  else if c =? 116 then Some 9          (* t *)
  else None.

Definition is_high_surrogate (c : N) : bool := (55296 <=? c) && (c <=? 56319).
Definition is_low_surrogate (c : N) : bool := (56320 <=? c) && (c <=? 57343).

Definition push (c : N) (r : option (text * text)) : option (text * text) :=
  match r with
  | Some (str, rest) => Some (c :: str, rest)
  | None => None
  end.

(** [scanstring]: the text behind an opening quote, up to the closing one;
    returns the decoded string and what follows the closing quote.  A
    control character below U+0020 inside the string is an error. *)
Fixpoint scanstring (s : text) : option (text * text) :=
  match s with
  | [] => None
  | c :: s1 =>
    if c =? DQ then Some ([], s1)
    else if c =? BSL then
      match s1 with
      | [] => None
      | e :: s2 =>
        if e =? 117 (* u *) then
          match s2 with
          | h1 :: h2 :: h3 :: h4 :: s3 =>
            match hex4 h1 h2 h3 h4 with
            | None => None
            | Some uni =>
              match s3 with
              | b :: u :: k1 :: k2 :: k3 :: k4 :: s4 =>
                if is_high_surrogate uni && (b =? BSL) && (u =? 117) then
                  match hex4 k1 k2 k3 k4 with
                  | None => None
                  | Some uni2 =>
                    if is_low_surrogate uni2
                    then push (65536 + (uni - 55296) * 1024 + (uni2 - 56320))
                              (scanstring s4)
                    else push uni (scanstring s3)
                  end
                else push uni (scanstring s3)
              | _ => push uni (scanstring s3)
              end
            end
          | _ => None
          end
        else
          match backslash e with
          | None => None
          | Some ch => push ch (scanstring s2)
          end
      end
    else if c <? 32 then None
    else push c (scanstring s1)
  end.

Fixpoint digits_value (acc : N) (ds : text) : N :=
  match ds with
  | [] => acc
  | d :: ds' => digits_value (acc * 10 + (d - 48)) ds'
  end.

(** The integer part of [NUMBER_RE]: [0|[1-9][0-9]*]. *)
Definition scan_int_part (s : text) : option (text * text) :=
  match s with
  | [] => None
  | c :: s' =>
    if c =? 48 then Some ([c], s')
    else if is_digit c then let (ds, r) := span is_digit s' in Some (c :: ds, r)
    else None
  end.

(** The optional fraction [\.[0-9]+]. *)
Definition scan_frac (s : text) : option (text * text) :=
  match s with
  | c :: s' =>
    if c =? 46 then
      match span is_digit s' with
      | ([], _) => None
      | (ds, r) => Some (ds, r)
      end
    else None
  | [] => None
  end.

(** The optional exponent [[eE][-+]?[0-9]+]. *)
Definition scan_exp (s : text) : option (Z * text) :=
  match s with
  | c :: s' =>
    if (c =? 101) || (c =? 69) then
      let '(neg, s'') :=
        match s' with
        | sg :: t =>
          if sg =? 45 then (true, t) else if sg =? 43 then (false, t)
          else (false, s')
        | [] => (false, s')
        end in
      match span is_digit s'' with
      | ([], _) => None
      | (ds, r) =>
        let v := Z.of_N (digits_value 0 ds) in
        Some (if neg then (- v)%Z else v, r)
      end
    else None
  | [] => None
  end.

(** A number: an [int] when there is neither fraction nor exponent, a
    [float] otherwise. *)
Definition scan_number (s : text) : option (pyval * text) :=
  let '(neg, s0) :=
    match s with
    | c :: s' => if c =? 45 then (true, s') else (false, s)
    | [] => (false, s)
    end in
  match scan_int_part s0 with
  | None => None
  | Some (ip, s1) =>
    match scan_frac s1, scan_exp s1 with
    | None, None =>
      let v := Z.of_N (digits_value 0 ip) in
      Some (PyInt (if neg then (- v)%Z else v), s1)
    | None, Some (ex, s2) =>
      Some (PyFloat (FDec neg (digits_value 0 ip) ex), s2)
    | Some (fp, s2), _ =>
      let m := digits_value 0 (ip ++ fp) in
      let sh := (- Z.of_nat (length fp))%Z in
      match scan_exp s2 with
      | None => Some (PyFloat (FDec neg m sh), s2)
      | Some (ex, s3) => Some (PyFloat (FDec neg m (ex + sh)), s3)
      end
    end
  end.

Definition scan_constant (s : text) : option (pyval * text) :=
  match strip_prefix (txt "null") s with
  | Some r => Some (PyNone, r)
  | None =>
  match strip_prefix (txt "true") s with
  | Some r => Some (PyBool true, r)
  | None =>
  match strip_prefix (txt "false") s with
  | Some r => Some (PyBool false, r)
  | None =>
  match scan_number s with
  | Some vr => Some vr
  | None =>
  match strip_prefix (txt "NaN") s with
  | Some r => Some (PyFloat FNan, r)
  | None =>
  match strip_prefix (txt "Infinity") s with
  | Some r => Some (PyFloat (FInf false), r)
  | None =>
  match strip_prefix (txt "-Infinity") s with
  | Some r => Some (PyFloat (FInf true), r)
  | None => None
  end end end end end end end.

(** [scan_once] with the object and array loops.  [fuel] bounds the depth
    of the calls; every call below another has read a character first, so
    the length of the text is enough ([json_loads_fuel] below). *)
Fixpoint scan_once (fuel : nat) (s : text) {struct fuel}
  : option (pyval * text) :=
  match fuel with
  | O => None
  | S f =>
    match s with
    | [] => None
    | c :: s' =>
      if c =? DQ then
        match scanstring s' with
        | Some (str, r) => Some (PyStr str, r)
        | None => None
        end
      else if c =? 123 (* { *) then
        match skip_ws s' with
        | c1 :: r1 =>
          if c1 =? 125 (* } *) then Some (PyDict [], r1)
          else parse_members f [] (c1 :: r1)
        | [] => None
        end
      else if c =? 91 (* [ *) then
        match skip_ws s' with
        | c1 :: r1 =>
          if c1 =? 93 (* ] *) then Some (PyList [], r1)
          else parse_elems f [] (c1 :: r1)
        | [] => None
        end
      else scan_constant s
    end
  end

(** The members of an object from the opening quote of a key on; a
    repeated key keeps its last value. *)
with parse_members (fuel : nat) (acc : list (pyval * pyval)) (s : text)
  {struct fuel} : option (pyval * text) :=
  match fuel with
  | O => None
  | S f =>
    match s with
    | c :: s1 =>
      if c =? DQ then
        match scanstring s1 with
        | None => None
        | Some (key, s2) =>
          match skip_ws s2 with
          | c2 :: s3 =>
            if c2 =? 58 (* : *) then
              match scan_once f (skip_ws s3) with
              | None => None
              | Some (v, s4) =>
                let acc' := dict_set key v acc in
                match skip_ws s4 with
                | c5 :: s5 =>
                  if c5 =? 125 then Some (PyDict acc', s5)
                  else if c5 =? 44 (* , *)
                  then parse_members f acc' (skip_ws s5)
                  else None
                | [] => None
                end
              end
            else None
          | [] => None
          end
        end
      else None
    | [] => None
    end
  end

(** The elements of an array from the first character of a value on. *)
with parse_elems (fuel : nat) (acc : list pyval) (s : text)
  {struct fuel} : option (pyval * text) :=
  match fuel with
  | O => None
  | S f =>
    match scan_once f s with
    | None => None
    | Some (v, s1) =>
      match skip_ws s1 with
      | c :: s2 =>
        if c =? 93 then Some (PyList (acc ++ [v]), s2)
        else if c =? 44 then parse_elems f (acc ++ [v]) (skip_ws s2)
        else None
      | [] => None
      end
    end
  end.

(** [json.loads(s)] for a [str]: a leading byte-order mark is refused,
    white space around the one value is skipped, anything else behind it is
    an error. *)
Definition json_loads (s : text) : option pyval :=
  match s with
  | 65279 :: _ => None
  | _ =>
    match scan_once (S (length s)) (skip_ws s) with
    | Some (v, r) =>
      match skip_ws r with
      | [] => Some v
      | _ :: _ => None
      end
    | None => None
    end
  end.

(* ================================================================== *)
(** ** The [re] module

    Regular expressions as the engine runs them: a backtracking matcher that
    tries the alternatives of a greedy repetition longest first and returns
    the first way the whole pattern matches.  Only the constructs of the two
    patterns of the source are present.  Both patterns are compiled with
    [re.DOTALL], so [.] matches every character. *)

Inductive regex : Type :=
| RLit (c : N)                  (* a literal character *)
| RAny                          (* [.] *)
| RSet (p : N -> bool)          (* a character class, [\s] *)
| RCat (r1 r2 : regex)          (* [r1 r2] *)
| RStar (r : regex)             (* [r*], greedy *)
| RGroup (i : nat) (r : regex). (* the capturing group number [i] *)

(** [r+] *)
Definition RPlus (r : regex) : regex := RCat r (RStar r).

Fixpoint RLits (cs : text) (r : regex) : regex :=
  match cs with
  | [] => r
  | c :: cs' => RCat (RLit c) (RLits cs' r)
  end.

(** The captured groups, the latest capture of a group first. *)
Definition caps : Type := list (nat * text).

Fixpoint cap_get (i : nat) (cs : caps) : option text :=
  match cs with
  | [] => None
  | (j, t) :: cs' => if Nat.eqb i j then Some t else cap_get i cs'
  end.

(** The prefix of [s] that was read when [rest] is what remains of it. *)
Definition consumed (s rest : text) : text :=
  firstn (length s - length rest) s.

(** [rmatch r s cs k]: match [r] at the head of [s] and hand what remains
    and the captures to the continuation [k], in the order of the engine's
    choices; [None] when every choice fails.  An iteration of a repetition
    that reads nothing is not followed. *)
Fixpoint rmatch (r : regex) (s : text) (cs : caps)
    (k : text -> caps -> option (caps * text)) {struct r}
  : option (caps * text) :=
  match r with
  | RLit c =>
    match s with
    | x :: s' => if x =? c then k s' cs else None
    | [] => None
    end
  | RAny =>
    match s with
    | _ :: s' => k s' cs
    | [] => None
    end
  | RSet p =>
    match s with
    | x :: s' => if p x then k s' cs else None
    | [] => None
    end
  | RCat r1 r2 => rmatch r1 s cs (fun s' cs' => rmatch r2 s' cs' k)
  | RStar r1 =>
    (fix loop (n : nat) (s : text) (cs : caps) {struct n}
       : option (caps * text) :=
       match n with
       | O => k s cs
       | S n' =>
         match rmatch r1 s cs
                 (fun s' cs' =>
                    if (length s' <? length s)%nat then loop n' s' cs'
                    else None)
         with
         | Some res => Some res
         | None => k s cs
         end
       end) (length s) s cs
  | RGroup i r1 =>
    rmatch r1 s cs (fun s' cs' => k s' ((i, consumed s s') :: cs'))
  end.

(** A match object: the text before the match, the captures ([group(i)],
    [group(0)] being the whole match) and the text behind the match. *)
Record match_obj : Type := MatchObj {
  m_before : text;
  m_groups : caps;
  m_after : text
}.

Definition group (i : nat) (m : match_obj) : text :=
  match cap_get i (m_groups m) with Some t => t | None => [] end.

(** The pattern matched at the head of [s]. *)
Definition match_at (r : regex) (s : text) : option (caps * text) :=
  match rmatch r s [] (fun s' cs => Some (cs, s')) with
  | Some (cs, rest) => Some ((O, consumed s rest) :: cs, rest)
  | None => None
  end.

(** [re.search]: the match at the leftmost position that has one. *)
Fixpoint search_from (r : regex) (before : text) (s : text)
  : option match_obj :=
  match match_at r s with
  | Some (cs, rest) => Some (MatchObj (rev before) cs rest)
  | None =>
    match s with
    | [] => None
    | c :: s' => search_from r (c :: before) s'
    end
  end.

Definition re_search (r : regex) (s : text) : option match_obj :=
  search_from r [] s.

(** [re.sub] with a function as replacement: the matches are taken from
    left to right without overlap, each is replaced by what [repl] returns
    for it, the text between them is kept.  [skip] counts the characters of
    the last match that are still to be passed. *)
Fixpoint sub_from (r : regex) (repl : match_obj -> text) (before : text)
    (skip : nat) (s : text) : text :=
  match skip with
  | S n =>
    match s with
    | [] => []
    | c :: s' => sub_from r repl (c :: before) n s'
    end
  | O =>
    match match_at r s with
    | Some (cs, rest) =>
      repl (MatchObj (rev before) cs rest) ++
      match s with
      | [] => []
      | c :: s' =>
        match (length s - length rest)%nat with
        | O => c :: sub_from r repl (c :: before) O s'
        | S n => sub_from r repl (c :: before) n s'
        end
      end
    | None =>
      match s with
      | [] => []
      | c :: s' => c :: sub_from r repl (c :: before) O s'
      end
    end
  end.

Definition re_sub (r : regex) (repl : match_obj -> text) (s : text) : text :=
  sub_from r repl [] O s.

(** [\s] on a [str] pattern: the characters for which [str.isspace] holds. *)
Definition is_space (c : N) : bool :=
  ((9 <=? c) && (c <=? 13)) || ((28 <=? c) && (c <=? 32)) ||
  (c =? 133) || (c =? 160) || (c =? 5760) ||
  ((8192 <=? c) && (c <=? 8202)) || (c =? 8232) || (c =? 8233) ||
  (c =? 8239) || (c =? 8287) || (c =? 12288).

(** The class of all characters but the double quote. *)
Definition not_quote (c : N) : bool := negb (c =? DQ).

(** ** [str.replace] *)

(** The scan of [s.replace(old, new)] for a non-empty [old]: occurrences
    are taken from left to right without overlap. *)
Fixpoint replace_scan (old new : text) (skip : nat) (s : text) : text :=
  match s with
  | [] => []
  | c :: s' =>
    match skip with
    | S n => replace_scan old new n s'
    | O =>
      if starts_with old s
      then new ++ replace_scan old new (length old - 1) s'
      else c :: replace_scan old new O s'
    end
  end.

(** [s.replace(old, new)]; an empty [old] matches between all characters. *)
Definition str_replace (s old new : text) : text :=
  match old with
  | [] => new ++ flat_map (fun c => c :: new) s
  | _ :: _ => replace_scan old new O s
  end.

(* ================================================================== *)
(** ** The request decoder: [fix_json_format] *)

Declare Scope re_scope.
Delimit Scope re_scope with re.
Bind Scope re_scope with regex.
Infix "+++" := RCat (at level 60, right associativity) : re_scope.

(** A JSON string literal without escapes: the text between double quotes. *)
Definition quoted (s : text) : text := DQ :: s ++ [DQ].

(** The key of the field with its colon, as both patterns spell it. *)
Definition sql_key : text := quoted (txt "sql") ++ txt ":".

(** The pattern of methods 2 and 4: the key [sql], a colon, white space, and
    a quoted value captured as group 1: any characters but the quote, then
    any number of times a backslash with the character behind it and again
    any characters but the quote. *)
Definition sql_pattern : regex :=
  RLits sql_key
    (RStar (RSet is_space) +++ RLit DQ +++
     RGroup 1 (RStar (RSet not_quote) +++
               RStar (RLit BSL +++ RAny +++ RStar (RSet not_quote))) +++
     RLit DQ)%re.

(** The pattern of method 3: any quoted key (group 1), a colon, white
    space, and a quoted value (group 2): any characters but the quote, then
    any number of times a newline and again any characters but the quote. *)
Definition pair_pattern : regex :=
  (RLit DQ +++ RGroup 1 (RPlus (RSet not_quote)) +++ RLit DQ +++ RLit 58 +++
   RStar (RSet is_space) +++ RLit DQ +++
   RGroup 2 (RStar (RSet not_quote) +++
             RStar (RLit LF +++ RStar (RSet not_quote))) +++
   RLit DQ)%re.

(** [v.replace('\n', '\\n').replace('\r', '\\r')]: a newline becomes a
    backslash and [n], a carriage return a backslash and [r]. *)
Definition escape_newlines (v : text) : text :=
  str_replace (str_replace v [LF] [BSL; 110]) [CR] [BSL; 114].

(** [v.replace('\\n', '\n').replace('\\r', '\r')], the other way round. *)
Definition unescape_newlines (v : text) : text :=
  str_replace (str_replace v [BSL; 110] [LF]) [BSL; 114] [CR].

(** The field the rewrites put back: the key [sql], a colon, one space and
    the quoted content. *)
Definition sql_field (content : text) : text :=
  sql_key ++ txt " " ++ quoted content.

(** Method 1: parse the text as it is. *)
Definition method1 (raw_data : text) : option pyval := json_loads raw_data.

(** Method 2, the text it hands to the parser: every occurrence of the
    matched field in the raw text is replaced by the field with its
    newlines escaped. *)
Definition method2_fixed (raw_data : text) : option text :=
  match re_search sql_pattern raw_data with
  | Some sql_match =>
    let sql_content := escape_newlines (group 1 sql_match) in
    Some (str_replace raw_data (group 0 sql_match) (sql_field sql_content))
  | None => None
  end.

Definition method2 (raw_data : text) : option pyval :=
  match method2_fixed raw_data with
  | Some fixed_data => json_loads fixed_data
  | None => None
  end.

(** Method 3: the newlines of every quoted value behind a quoted key are
    escaped, then the text is parsed. *)
Definition fix_string_value (m : match_obj) : text :=
  let key := group 1 m in
  let value := group 2 m in
  let fixed_value := escape_newlines value in
  quoted key ++ txt ": " ++ quoted fixed_value.

Definition method3_fixed (raw_data : text) : text :=
  re_sub pair_pattern fix_string_value raw_data.

Definition method3 (raw_data : text) : option pyval :=
  json_loads (method3_fixed raw_data).

(** Method 4: the content captured by the pattern, its escaped newlines
    made literal, alone in a dictionary. *)
Definition method4 (raw_data : text) : option pyval :=
  match re_search sql_pattern raw_data with
  | Some sql_match =>
    let sql_content := unescape_newlines (group 1 sql_match) in
    Some (mk_dict [(txt "sql", PyStr sql_content)])
  | None => None
  end.

Definition msg_unparseable : text := txt "无法解析JSON数据".

Section Decoder.

(** [ast.literal_eval] on a [str]: the value of the Python literal, [None]
    when it raises. *)
Variable literal_eval : text -> option pyval.

(** Method 5: whatever the literal evaluation yields. *)
Definition method5 (raw_data : text) : option pyval := literal_eval raw_data.

(** Each method runs in a [try] whose [except] passes on to the next; the
    first value returned is the result, and when none returns the function
    raises. *)
Definition fix_json_format (raw_data : text) : outcome pyval :=
  match method1 raw_data with
  | Some v => Return v
  | None =>
  match method2 raw_data with
  | Some v => Return v
  | None =>
  match method3 raw_data with
  | Some v => Return v
  | None =>
  match method4 raw_data with
  | Some v => Return v
  | None =>
  match method5 raw_data with
  | Some v => Return v
  | None => Raise msg_unparseable
  end end end end end.

End Decoder.

(* ================================================================== *)
(** ** Calls to the store *)

(** What [pd.read_sql_query] returns: the column names and the rows. *)
Record dataframe : Type := DataFrame {
  df_columns : list text;
  df_rows : list (list pyval)
}.

(** [df.empty]: one of the two axes has length zero. *)
Definition df_empty (df : dataframe) : bool :=
  negb (nonempty (df_rows df)) || negb (nonempty (df_columns df)).

(** [df.to_dict('records')]: one dictionary per row, from column name to
    the value at that place. *)
Definition to_dict_records (df : dataframe) : list pyval :=
  map (fun row => mk_dict (combine (df_columns df) row)) (df_rows df).

(** The handler runs against a store; a run is followed by the list of the
    queries handed to the store so far, and ends with a value or with an
    exception. *)
Inductive event : Type :=
| StoreQuery (sql_query : pyval).

Definition M (A : Type) : Type := list event -> outcome A * list event.

Definition ret {A : Type} (a : A) : M A := fun log => (Return a, log).

Definition raise {A : Type} (msg : text) : M A := fun log => (Raise msg, log).

Definition bind {A B : Type} (c : M A) (k : A -> M B) : M B :=
  fun log =>
    match c log with
    | (Return a, log') => k a log'
    | (Raise msg, log') => (Raise msg, log')
    end.

(** [try: c  except Exception as e: h(str(e))] *)
Definition try_except {A : Type} (c : M A) (h : text -> M A) : M A :=
  fun log =>
    match c log with
    | (Return a, log') => (Return a, log')
    | (Raise msg, log') => h msg log'
    end.

Definition lift {A : Type} (o : outcome A) : M A := fun log => (o, log).

Declare Scope m_scope.
Delimit Scope m_scope with M.
Notation "x <- c ;; k" := (bind c (fun x => k))
  (at level 61, c at next level, right associativity) : m_scope.
Notation "c ;;; k" := (bind c (fun _ => k))
  (at level 61, right associativity) : m_scope.

(** *** Operations on values that may raise *)

Definition not_subscriptable (v : pyval) : text :=
  [SQ] ++ type_name v ++ [SQ] ++ txt " object is not subscriptable".

(** [v[:100]]: sequences have slices; for every other type the subscript
    raises [TypeError] (for a [dict], because a slice is not hashable). *)
Definition slice100 (v : pyval) : outcome pyval :=
  match v with
  | PyStr s => Return (PyStr (firstn 100 s))
  | PyBytes b => Return (PyBytes (firstn 100 b))
  | PyList l => Return (PyList (firstn 100 l))
  | PyTuple l => Return (PyTuple (firstn 100 l))
  | PyDict _ => Raise (txt "unhashable type: 'slice'")
  | _ => Raise (not_subscriptable v)
  end.

(** [v.get(k)]: only a [dict] has the method; a missing key gives [None]. *)
Definition py_get (v : pyval) (k : text) : outcome pyval :=
  match v with
  | PyDict d =>
    Return (match dict_get k d with Some x => x | None => PyNone end)
  | _ =>
    Raise ([SQ] ++ type_name v ++ [SQ] ++ txt " object has no attribute 'get'")
  end.

(** [d[k]] on a dictionary; a missing key raises [KeyError]. *)
Definition getitem (d : list (pyval * pyval)) (k : text) : outcome pyval :=
  match dict_get k d with
  | Some x => Return x
  | None => Raise ([SQ] ++ k ++ [SQ])
  end.

(* ================================================================== *)
(** ** The result normaliser and the handlers *)

Record response : Type := Response {
  body : pyval;
  status : N
}.

(** [jsonify(d)] with the status code of the [return]. *)
Definition jsonify (kvs : list (text * pyval)) (code : N) : response :=
  Response (mk_dict kvs) code.

Section Api.

Variable literal_eval : text -> option pyval.

(** The store: the check that the database file exists, the connection and
    [pd.read_sql_query(sql_query, conn)], with whatever they raise. *)
Variable read_sql_query : pyval -> outcome dataframe.

(** [datetime.now().isoformat()] *)
Variable timestamp : text.

Definition query_store (sql_query : pyval) : M dataframe :=
  fun log => (read_sql_query sql_query, log ++ [StoreQuery sql_query]).

Local Open Scope m_scope.

(** [execute_sql_query]: the first statement under [try] formats
    [sql_query[:100]] into the log line; then the store is queried and the
    frame is shaped.  Every exception ends in the error dictionary. *)
Definition execute_sql_query (sql_query : pyval) : M (list (pyval * pyval)) :=
  try_except
    (lift (slice100 sql_query) ;;;
     df <- query_store sql_query ;;
     let data := to_dict_records df in
     let data :=
       if df_empty df && (0 <? length (df_columns df))%nat then
         let empty_row := mk_dict (map (fun col => (col, PyNone)) (df_columns df)) in
         [empty_row]
       else data in
     ret (dict_of
            [(txt "success", PyBool true);
             (txt "error", PyNone);
             (txt "data", PyList data);
             (txt "row_count", PyInt (Z.of_nat (length data)));
             (txt "columns", PyList (map PyStr (df_columns df)))]))
    (fun e =>
       ret (dict_of
              [(txt "success", PyBool false);
               (txt "error", PyStr e);
               (txt "data", PyNone)])).

(** [query_sql], the handler of [POST /query], on the text of the body. *)
Definition query_sql (raw_data : text) : M response :=
  try_except
    (match fix_json_format literal_eval raw_data with
     | Raise e =>
       ret (jsonify
              [(txt "success", PyBool false);
               (txt "error", PyStr (txt "JSON格式错误: " ++ e));
               (txt "data", PyNone)] 400)
     | Return data =>
       if negb (truthy data) then
         ret (jsonify
                [(txt "success", PyBool false);
                 (txt "error", PyStr (txt "请求体不能为空"));
                 (txt "data", PyNone)] 400)
       else
         sql_query <- lift (py_get data (txt "sql")) ;;
         if negb (truthy sql_query) then
           ret (jsonify
                  [(txt "success", PyBool false);
                   (txt "error", PyStr (txt "缺少sql参数"));
                   (txt "data", PyNone)] 400)
         else
           result <- execute_sql_query sql_query ;;
           success <- lift (getitem result (txt "success")) ;;
           if truthy success then
             data' <- lift (getitem result (txt "data")) ;;
             row_count <- lift (getitem result (txt "row_count")) ;;
             columns <- lift (getitem result (txt "columns")) ;;
             ret (jsonify
                    [(txt "success", PyBool true);
                     (txt "error", PyNone);
                     (txt "data", data');
                     (txt "row_count", row_count);
                     (txt "columns", columns);
                     (txt "sql", sql_query);
                     (txt "timestamp", PyStr timestamp)] 200)
           else
             error <- lift (getitem result (txt "error")) ;;
             ret (jsonify
                    [(txt "success", PyBool false);
                     (txt "error", error);
                     (txt "data", PyNone);
                     (txt "sql", sql_query);
                     (txt "timestamp", PyStr timestamp)] 400)
     end)
    (fun e =>
       ret (jsonify
              [(txt "success", PyBool false);
               (txt "error", PyStr (txt "服务器错误: " ++ e));
               (txt "data", PyNone);
               (txt "timestamp", PyStr timestamp)] 500)).

End Api.

(** The handlers of the errors 404 and 405. *)
Definition not_found : response :=
  jsonify
    [(txt "success", PyBool false);
     (txt "error", PyStr (txt "接口不存在"));
     (txt "data", PyNone)] 404.

Definition method_not_allowed : response :=
  jsonify
    [(txt "success", PyBool false);
     (txt "error", PyStr (txt "请求方法不允许"));
     (txt "data", PyNone)] 405.

(** Values of [ast.literal_eval] on three texts, for the examples below: a
    tuple, a dictionary and a string in Python's own notation.  None of them
    is valid JSON.  On the other texts used in the examples ([hello], and
    bodies that [json.loads] accepts before the literal evaluation is
    reached) nothing depends on it. *)
Definition literal_eval_sample (raw_data : text) : option pyval :=
  if text_eqb raw_data (txt "(1, 2)") then
    Some (PyTuple [PyInt 1; PyInt 2])
  else if text_eqb raw_data (txt "{'sql': 'SELECT 1'}") then
    Some (PyDict [(PyStr (txt "sql"), PyStr (txt "SELECT 1"))])
  else if text_eqb raw_data (txt "'SELECT 1'") then
    Some (PyStr (txt "SELECT 1"))
  else None.

(* ================================================================== *)
(** ** Notions used in the statements *)

(** The row of nulls: the dictionary comprehension over the columns. *)
Definition null_row (cols : list text) : list (pyval * pyval) :=
  dict_of (map (fun col => (col, PyNone)) cols).

(** The dictionary of a successful query. *)
Definition success_dict (data : list pyval) (cols : list text)
  : list (pyval * pyval) :=
  [(PyStr (txt "success"), PyBool true);
   (PyStr (txt "error"), PyNone);
   (PyStr (txt "data"), PyList data);
   (PyStr (txt "row_count"), PyInt (Z.of_nat (length data)));
   (PyStr (txt "columns"), PyList (map PyStr cols))].

(** The dictionary of a failed query. *)
Definition error_dict (msg : text) : list (pyval * pyval) :=
  [(PyStr (txt "success"), PyBool false);
   (PyStr (txt "error"), PyStr msg);
   (PyStr (txt "data"), PyNone)].

(** The body of a failure reported before the query runs. *)
Definition failure_body (msg : text) : pyval :=
  PyDict
    [(PyStr (txt "success"), PyBool false);
     (PyStr (txt "error"), PyStr msg);
     (PyStr (txt "data"), PyNone)].

(** The body of the answer to an exception that reaches the outer handler. *)
Definition server_error_body (e timestamp : text) : pyval :=
  PyDict
    [(PyStr (txt "success"), PyBool false);
     (PyStr (txt "error"), PyStr (txt "服务器错误: " ++ e));
     (PyStr (txt "data"), PyNone);
     (PyStr (txt "timestamp"), PyStr timestamp)].

(** The body of the answer to a query that failed in [execute_sql_query]. *)
Definition query_error_body (msg : text) (sql_query : pyval) (timestamp : text)
  : pyval :=
  PyDict
    [(PyStr (txt "success"), PyBool false);
     (PyStr (txt "error"), PyStr msg);
     (PyStr (txt "data"), PyNone);
     (PyStr (txt "sql"), sql_query);
     (PyStr (txt "timestamp"), PyStr timestamp)].

(** The body of the answer to a query that ran. *)
Definition query_ok_body (data : list pyval) (cols : list text)
    (sql_query : pyval) (timestamp : text) : pyval :=
  PyDict
    [(PyStr (txt "success"), PyBool true);
     (PyStr (txt "error"), PyNone);
     (PyStr (txt "data"), PyList data);
     (PyStr (txt "row_count"), PyInt (Z.of_nat (length data)));
     (PyStr (txt "columns"), PyList (map PyStr cols));
     (PyStr (txt "sql"), sql_query);
     (PyStr (txt "timestamp"), PyStr timestamp)].

(** The rows [execute_sql_query] reports for a frame. *)
Definition shaped_rows (df : dataframe) : list pyval :=
  if df_empty df && (0 <? length (df_columns df))%nat
  then [PyDict (null_row (df_columns df))]
  else to_dict_records df.

Definition is_null (o : option pyval) : bool :=
  match o with Some PyNone => true | _ => false end.

Definition is_present (o : option pyval) : bool :=
  match o with Some PyNone => false | Some _ => true | None => false end.

(** The invariant of the envelope: [success] is a boolean; when it is true,
    [error] is null and [data] and [columns] are there and not null; when it
    is false, [data] is null. *)
Definition envelope_ok (b : pyval) : bool :=
  match b with
  | PyDict d =>
    match dict_get (txt "success") d with
    | Some (PyBool true) =>
      is_null (dict_get (txt "error") d) &&
      is_present (dict_get (txt "data") d) &&
      is_present (dict_get (txt "columns") d)
    | Some (PyBool false) => is_null (dict_get (txt "data") d)
    | _ => false
    end
  | _ => false
  end.

(** The decoder raised: all repair methods are exhausted. *)
Definition decode_error (literal_eval : text -> option pyval) (raw_data : text)
  : Prop :=
  exists e, fix_json_format literal_eval raw_data = Raise e.

(** The body was decoded but carries no usable [sql]: the decoded value is
    falsy, or its [sql] entry is missing or falsy. *)
Definition missing_field (literal_eval : text -> option pyval)
    (raw_data : text) : Prop :=
  exists data,
    fix_json_format literal_eval raw_data = Return data /\
    (truthy data = false \/
     exists q, py_get data (txt "sql") = Return q /\ truthy q = false).

Definition is_mapping (v : pyval) : bool :=
  match v with PyDict _ => true | _ => false end.

(** The field at the head of a text, read without backtracking: the key,
    the run of white space, a quote, the run of characters up to the next
    quote.  Gives the white space, the content and the text behind the
    closing quote. *)
Definition sql_field_at (s : text) : option (text * text * text) :=
  match strip_prefix sql_key s with
  | None => None
  | Some s1 =>
    let (ws, s2) := span is_space s1 in
    match s2 with
    | [] => None
    | q :: s3 =>
      if q =? DQ then
        match span not_quote s3 with
        | (c, _ :: rest) => Some (ws, c, rest)
        | (_, []) => None
        end
      else None
    end
  end.

(** [old in s] *)
Fixpoint occurs_in (old s : text) : bool :=
  starts_with old s ||
  match s with
  | [] => false
  | _ :: s' => occurs_in old s'
  end.

Definition escape_char (c : N) : text :=
  if c =? LF then [BSL; 110] else if c =? CR then [BSL; 114] else [c].

(** The repair as the specification words it: the captured span, its
    newlines and carriage returns escaped, put back where the span stood;
    every other character of the text as it was. *)
Definition spliced_in_place (raw_data : text) : option text :=
  match re_search sql_pattern raw_data with
  | Some m =>
    let g0 := group 0 m in
    let g1 := group 1 m in
    Some (m_before m
          ++ firstn (length g0 - length g1 - 1) g0
          ++ escape_newlines g1 ++ [DQ]
          ++ m_after m)
  | None => None
  end.

(** The body of the running example: the query on two lines, the newline
    between them not escaped. *)
Definition multiline_body : text :=
  txt "{" ++ quoted (txt "sql") ++ txt ": "
  ++ quoted (txt "SELECT *" ++ [LF] ++ txt "FROM t") ++ txt "}".

(** The same without the space behind the colon. *)
Definition compact_body : text :=
  txt "{" ++ quoted (txt "sql") ++ txt ":"
  ++ quoted (txt "SELECT *" ++ [LF] ++ txt "FROM t") ++ txt "}".

(** A body whose query holds escaped quotes before a literal newline:
    the object with the one field [sql], its value [SELECT], a space, the
    name [a] between escaped quotes, a newline, [FROM t]. *)
Definition escaped_quote_body : text :=
  txt "{" ++ quoted (txt "sql") ++ txt ": "
  ++ quoted (txt "SELECT \" ++ quoted (txt "a\") ++ [LF] ++ txt "FROM t")
  ++ txt "}".

Definition is_newline (c : N) : bool := (c =? LF) || (c =? CR).

(** A character that a query may hold for the repair to be exact: not the
    quote, not the backslash, and no control character but the newline and
    the carriage return. *)
Definition plain_char (c : N) : bool :=
  not_quote c && negb (c =? BSL) && ((32 <=? c) || is_newline c).

(** The body with the one field [sql], the query between quotes as it is. *)
Definition sql_body (q : text) : text := txt "{" ++ sql_field q ++ txt "}".

(** A result of the scanner does not depend on the fuel: it is reached
    with every fuel that is at least the number of characters read. *)
Definition fuel_enough {A B : Type} (run : nat -> A -> text -> option (B * text))
    (f : nat) : Prop :=
  forall a s v r,
    run f a s = Some (v, r) ->
    (length r < length s)%nat /\
    forall f', (length s - length r <= f')%nat -> run f' a s = Some (v, r).


(** The status code agrees with the body: 200 goes with [success] true;
    400 and 500 go with [success] false and a message under [error]. *)
Definition status_agrees (r : response) : bool :=
  match body r with
  | PyDict d =>
    match dict_get (txt "success") d with
    | Some (PyBool true) => status r =? 200
    | Some (PyBool false) =>
      ((status r =? 400) || (status r =? 500) ||
       (status r =? 404) || (status r =? 405)) &&
      match dict_get (txt "error") d with
      | Some (PyStr _) => true
      | _ => false
      end
    | _ => false
    end
  | _ => false
  end.


(** ** The store behind [execute_sql_query], and the health check *)


Section Sqlite.

(** [os.path.exists(DATABASE)] *)
Variable db_exists : bool.

(** [sqlite3.connect(DATABASE, timeout=30)] *)
Variable connect : outcome unit.

(** [pd.read_sql_query(sql_query, conn)] on an open connection. *)
Variable pd_read_sql_query : pyval -> outcome dataframe.

(** The cursor of the health check: the count query and the first field of
    its first row. *)
Variable count_records : outcome pyval.

(** [get_db_connection]: a failure to connect is raised again with a
    prefix before its message. *)
Definition get_db_connection : outcome unit :=
  match connect with
  | Return conn => Return conn
  | Raise e => Raise (txt "数据库连接失败: " ++ e)
  end.


(** [health_check], the handler of [GET /health]. *)
Definition health_check (timestamp : text) : response :=
  match get_db_connection with
  | Raise e =>
    jsonify [(txt "status", PyStr (txt "unhealthy"));
             (txt "error", PyStr e);
             (txt "timestamp", PyStr timestamp)] 500
  | Return _ =>
    match count_records with
    | Return count =>
      jsonify [(txt "status", PyStr (txt "healthy"));
               (txt "database", PyStr (txt "connected"));
               (txt "total_records", count);
               (txt "timestamp", PyStr timestamp)] 200
    | Raise e =>
      jsonify [(txt "status", PyStr (txt "unhealthy"));
               (txt "error", PyStr e);
               (txt "timestamp", PyStr timestamp)] 500
    end
  end.

End Sqlite.


(* ================================================================== *)
(** ** The import script [csv_to_db.py] *)

(** What the script does to the world, in the order it does it. *)
Inductive io_event : Type :=
| EvRemove                          (* [os.remove(db_name)] *)
| EvConnect                         (* [sqlite3.connect(db_name)] *)
| EvGlob                            (* [glob.glob] on the folder *)
| EvReadCsv (csv_file : text)       (* [pd.read_csv(csv_file)] *)
| EvConcat (frames : list dataframe)   (* [pd.concat(frames)] *)
| EvToSql (df : dataframe)          (* [df.to_sql("customer_data", ...)] *)
| EvExecute (sql : text)            (* [cursor.execute(sql)] *)
| EvCommit                          (* [conn.commit()] *)
| EvClose.                          (* [conn.close()] *)

(** A run of the script: a value or an exception, and the events so far. *)
Definition IO (A : Type) : Type :=
  list io_event -> outcome A * list io_event.

Definition io_ret {A : Type} (a : A) : IO A := fun tr => (Return a, tr).

Definition io_bind {A B : Type} (c : IO A) (k : A -> IO B) : IO B :=
  fun tr =>
    match c tr with
    | (Return a, tr') => k a tr'
    | (Raise msg, tr') => (Raise msg, tr')
    end.

(** [try: c  except Exception: h] *)
Definition io_try {A : Type} (c : IO A) (h : IO A) : IO A :=
  fun tr =>
    match c tr with
    | (Return a, tr') => (Return a, tr')
    | (Raise _, tr') => h tr'
    end.

(** A call to the world: the event, then what the call gives. *)
Definition io_call {A : Type} (ev : io_event) (o : outcome A) : IO A :=
  fun tr => (o, tr ++ [ev]).

Definition io_lift {A : Type} (o : outcome A) : IO A := fun tr => (o, tr).

Declare Scope io_scope.
Delimit Scope io_scope with io.
Notation "x <~ c ;; k" := (io_bind c (fun x => k))
  (at level 61, c at next level, right associativity) : io_scope.
Notation "c ;;~ k" := (io_bind c (fun _ => k))
  (at level 61, right associativity) : io_scope.

(** [row[i]] on a row of a cursor. *)
Definition row_item (row : list pyval) (i : nat) : outcome pyval :=
  match nth_error row i with
  | Some v => Return v
  | None => Raise (txt "tuple index out of range")
  end.

(** [cursor.fetchone()[i]]: without a row [fetchone] gives [None], whose
    subscript raises. *)
Definition fetchone_item (rows : list (list pyval)) (i : nat) : outcome pyval :=
  match rows with
  | [] => Raise (txt "'NoneType' object is not subscriptable")
  | row :: _ => row_item row i
  end.

(** [[row[i] for row in rows]] *)
Fixpoint column_items (rows : list (list pyval)) (i : nat)
  : outcome (list pyval) :=
  match rows with
  | [] => Return []
  | row :: rows' =>
    match row_item row i with
    | Raise e => Raise e
    | Return v =>
      match column_items rows' i with
      | Raise e => Raise e
      | Return vs => Return (v :: vs)
      end
    end
  end.

(** The loop over the first columns: [col[1]] and [col[2]] of each. *)
Fixpoint column_lines (columns : list (list pyval)) : outcome unit :=
  match columns with
  | [] => Return tt
  | col :: rest =>
    match row_item col 1 with
    | Raise e => Raise e
    | Return _ =>
      match row_item col 2 with
      | Raise e => Raise e
      | Return _ => column_lines rest
      end
    end
  end.

(** The statements of [verify_database]. *)
Definition sql_tables : text :=
  txt "SELECT name FROM sqlite_master WHERE type='table'".
Definition sql_count : text := txt "SELECT COUNT(*) FROM customer_data".
Definition sql_table_info : text := txt "PRAGMA table_info(customer_data)".
Definition sql_date_range : text :=
  txt "SELECT MIN(stat_date), MAX(stat_date) FROM customer_data WHERE stat_date IS NOT NULL".
Definition sql_zones : text :=
  txt "SELECT DISTINCT gccxbigzone_name FROM customer_data WHERE gccxbigzone_name IS NOT NULL LIMIT 10".

Section CsvToDb.

(** [os.path.exists(db_name)] when the script starts. *)
Variable db_exists : bool.
Variable os_remove : outcome unit.
Variable connect : outcome unit.
(** [glob.glob(os.path.join("已脱敏", "*.csv"))] *)
Variable glob_csv : list text.
Variable read_csv : text -> outcome dataframe.
Variable pd_concat : list dataframe -> outcome dataframe.
Variable to_sql : dataframe -> outcome unit.
(** [cursor.execute(sql)] and the rows the cursor then holds. *)
Variable execute : text -> outcome (list (list pyval)).
Variable commit : outcome unit.
Variable close : outcome unit.

Local Open Scope io_scope.

(** [create_database]: an existing file is removed, then the connection is
    opened. *)
Definition create_database : IO unit :=
  (if db_exists then io_call EvRemove os_remove else io_ret tt) ;;~
  io_call EvConnect connect.

(** [get_csv_files] *)
Definition get_csv_files : IO (list text) :=
  io_call EvGlob (Return glob_csv).

(** The loop of [import_csv_to_db]: a file that cannot be read is logged
    and passed over. *)
Fixpoint read_all (csv_files : list text) (all_dataframes : list dataframe)
  : IO (list dataframe) :=
  match csv_files with
  | [] => io_ret all_dataframes
  | csv_file :: rest =>
    all' <~ io_try (df <~ io_call (EvReadCsv csv_file) (read_csv csv_file) ;;
                    io_ret (all_dataframes ++ [df]))
                   (io_ret all_dataframes) ;;
    read_all rest all'
  end.

(** [import_csv_to_db] *)
Definition import_csv_to_db (csv_files : list text) : IO bool :=
  all_dataframes <~ read_all csv_files [] ;;
  if negb (nonempty all_dataframes) then io_ret false
  else
    io_try
      (combined_df <~ io_call (EvConcat all_dataframes)
                        (pd_concat all_dataframes) ;;
       io_call (EvToSql combined_df) (to_sql combined_df) ;;~
       io_ret true)
      (io_ret false).

(** [verify_database] *)
Definition verify_database : IO bool :=
  io_try
    (tables <~ io_call (EvExecute sql_tables) (execute sql_tables) ;;
     io_lift (column_items tables 0) ;;~
     counts <~ io_call (EvExecute sql_count) (execute sql_count) ;;
     io_lift (fetchone_item counts 0) ;;~
     columns <~ io_call (EvExecute sql_table_info) (execute sql_table_info) ;;
     io_lift (column_lines (firstn 10 columns)) ;;~
     dates <~ io_call (EvExecute sql_date_range) (execute sql_date_range) ;;
     lo <~ io_lift (fetchone_item dates 0) ;;
     (if truthy lo then io_lift (fetchone_item dates 1) else io_ret lo) ;;~
     zones <~ io_call (EvExecute sql_zones) (execute sql_zones) ;;
     io_lift (column_items zones 0) ;;~
     io_ret true)
    (io_ret false).

(** [main] *)
Definition main : IO bool :=
  io_try
    (create_database ;;~
     csv_files <~ get_csv_files ;;
     if negb (nonempty csv_files) then io_ret false
     else
       success <~ import_csv_to_db csv_files ;;
       if negb success then io_ret false
       else
         verify_success <~ verify_database ;;
         if negb verify_success then io_ret false
         else
           io_call EvCommit commit ;;~
           io_call EvClose close ;;~
           io_ret true)
    (io_ret false).

End CsvToDb.

(** The frames of the files that can be read, in the order of the files. *)
Fixpoint readable (read_csv : text -> outcome dataframe) (csv_files : list text)
  : list dataframe :=
  match csv_files with
  | [] => []
  | f :: rest =>
    match read_csv f with
    | Return df => df :: readable read_csv rest
    | Raise _ => readable read_csv rest
    end
  end.

(** The five statements of the verification, as events. *)
Definition verify_events : list io_event :=
  [EvExecute sql_tables; EvExecute sql_count; EvExecute sql_table_info;
   EvExecute sql_date_range; EvExecute sql_zones].

(** The events of [create_database] and [get_csv_files] when they pass. *)
Definition setup_events (db_exists : bool) : list io_event :=
  (if db_exists then [EvRemove] else []) ++ [EvConnect; EvGlob].

(** The outcome of the import and the events it adds, from the files and
    what reading, merging and writing give. *)
Definition import_outcome (read_csv : text -> outcome dataframe)
    (pd_concat : list dataframe -> outcome dataframe)
    (to_sql : dataframe -> outcome unit) (csv_files : list text)
  : bool * list io_event :=
  let good := readable read_csv csv_files in
  match good with
  | [] => (false, map EvReadCsv csv_files)
  | _ :: _ =>
    match pd_concat good with
    | Raise _ => (false, map EvReadCsv csv_files ++ [EvConcat good])
    | Return combined =>
      (match to_sql combined with Return _ => true | Raise _ => false end,
       map EvReadCsv csv_files ++ [EvConcat good; EvToSql combined])
    end
  end.


(** A run for the examples: no database yet, one file that can be read,
    and a cursor whose every statement gives one row of three fields. *)
Definition sample_frame : dataframe := DataFrame [txt "stat_date"] [[PyInt 1]].

Definition sample_main (glob_csv : list text) : outcome bool * list io_event :=
  main true (Return tt) (Return tt) glob_csv
    (fun _ => Return sample_frame) (fun _ => Return sample_frame)
    (fun _ => Return tt)
    (fun _ => Return [[PyInt 1; PyInt 2; PyInt 3]])
    (Return tt) (Return tt) [].

(** ** Method 3 and flat objects of string fields *)

(** A field at the head of a text, read without backtracking: a quoted
    key, not empty and without quote, a colon, the run of white space, a
    quote, the run of characters up to the next quote.  Gives the key, the
    white space, the value and the text behind the closing quote. *)
Definition pair_field_at (s : text) : option (text * text * text * text) :=
  match s with
  | [] => None
  | q0 :: s1 =>
    if q0 =? DQ then
      match span not_quote s1 with
      | ([], _) => None
      | (k, q1 :: c :: s2) =>
        if (q1 =? DQ) && (c =? 58) then
          let (ws, s3) := span is_space s2 in
          match s3 with
          | [] => None
          | q2 :: s4 =>
            if q2 =? DQ then
              match span not_quote s4 with
              | (v, _ :: rest) => Some (k, ws, v, rest)
              | (_, []) => None
              end
            else None
          end
        else None
      | (_, _) => None
      end
    else None
  end.

(** The matched text of a field. *)
Definition pair_text (k ws v : text) : text :=
  quoted k ++ [58] ++ ws ++ quoted v.

(** A field as a client writes it: key and value between quotes, a colon
    and one space between them. *)
Definition field (kv : text * text) : text :=
  quoted (fst kv) ++ txt ": " ++ quoted (snd kv).

(** Fields joined with a comma and a space. *)
Fixpoint members (f : text * text) (fs : list (text * text)) : text :=
  match fs with
  | [] => field f
  | g :: fs' => field f ++ txt ", " ++ members g fs'
  end.

(** The body with these fields between braces. *)
Definition flat_object (f : text * text) (fs : list (text * text)) : text :=
  txt "{" ++ members f fs ++ txt "}".

(** A key that is not empty and holds plain characters without newline; a
    value of plain characters, newlines and carriage returns allowed. *)
Definition plain_field (kv : text * text) : bool :=
  nonempty (fst kv) && forallb plain_char (fst kv)
  && negb (existsb is_newline (fst kv)) && forallb plain_char (snd kv).

(** The field with the newlines of its value escaped. *)
Definition escaped_field (kv : text * text) : text * text :=
  (fst kv, escape_newlines (snd kv)).

(** The dictionary the fields stand for: a repeated key keeps its place and
    takes the last value. *)
Definition record_of (fs : list (text * text)) : list (pyval * pyval) :=
  fold_left (fun acc kv => dict_set (fst kv) (PyStr (snd kv)) acc) fs [].


(** The field as it is, or with the newlines of its value escaped. *)
Definition variant (kv' kv : text * text) : Prop :=
  kv' = kv \/ kv' = escaped_field kv.

(** No position of [a], with [R] behind it, starts with the key of the
    [sql] field. *)
Fixpoint no_key_in (a R : text) : bool :=
  match a with
  | [] => true
  | _ :: a' => negb (starts_with sql_key (a ++ R)) && no_key_in a' R
  end.

(* ================================================================== *)
(** * Properties *)

(** ** Text and dictionaries *)

Lemma text_eqb_refl (a : text) : text_eqb a a = true.
Proof.
  induction a as [|x a IH]; simpl; [reflexivity|].
  now rewrite N.eqb_refl, IH.
Qed.

Lemma text_eqb_eq (a b : text) : text_eqb a b = true -> a = b.
Proof.
  revert b; induction a as [|x a IH]; intros [|y b]; simpl; try discriminate.
  - reflexivity.
  - intros H. apply andb_true_iff in H as [Hx Hab].
    apply N.eqb_eq in Hx. f_equal; auto.
Qed.

Lemma is_key_eq (k : text) (x : pyval) : is_key k x = true -> x = PyStr k.
Proof.
  destruct x; simpl; try discriminate.
  intros H. now apply text_eqb_eq in H as ->.
Qed.

Lemma dict_get_set_same (k : text) (v : pyval) (d : list (pyval * pyval)) :
  dict_get k (dict_set k v d) = Some v.
Proof.
  induction d as [|[x w] d IH]; simpl.
  - now rewrite text_eqb_refl.
  - destruct (is_key k x) eqn:E; simpl; rewrite E; auto.
Qed.

Lemma dict_get_set_other (k k' : text) (v : pyval) (d : list (pyval * pyval)) :
  k <> k' -> dict_get k' (dict_set k v d) = dict_get k' d.
Proof.
  intros Hne. induction d as [|[x w] d IH]; simpl.
  - destruct (text_eqb k k') eqn:E; [|reflexivity].
    now apply text_eqb_eq in E.
  - destruct (is_key k x) eqn:E; simpl.
    + destruct (is_key k' x) eqn:E'; [|reflexivity].
      apply is_key_eq in E, E'. congruence.
    + now rewrite IH.
Qed.

Lemma dict_set_entries (k : text) (v : pyval) (d : list (pyval * pyval))
    (x w : pyval) :
  In (x, w) (dict_set k v d) ->
  In (x, w) d \/ (x = PyStr k /\ w = v).
Proof.
  induction d as [|[y u] d IH]; simpl.
  - intros [H|[]]. right. now inversion H.
  - destruct (is_key k y) eqn:E; simpl.
    + intros [H|H]; [|now left; right].
      inversion H; subst. right. split; [now apply is_key_eq|reflexivity].
    + intros [H|H]; [now left; left|].
      destruct (IH H) as [H'|H']; [now left; right|now right].
Qed.

Lemma null_row_acc_get (cols : list text) (d : list (pyval * pyval)) (c : text) :
  In c cols \/ dict_get c d = Some PyNone ->
  dict_get c
    (fold_left (fun d kv => dict_set (fst kv) (snd kv) d)
       (map (fun col => (col, PyNone)) cols) d) = Some PyNone.
Proof.
  revert d. induction cols as [|a cols IH]; intros d; simpl.
  - now intros [[]|H].
  - intros H. apply IH.
    destruct (list_eq_dec N.eq_dec a c) as [->|Hne].
    + right. apply dict_get_set_same.
    + destruct H as [[H|H]|H]; [contradiction|now left|right].
      now rewrite dict_get_set_other.
Qed.

Lemma null_row_acc_entries (all cols : list text) (d : list (pyval * pyval)) :
  incl cols all ->
  (forall x w, In (x, w) d -> w = PyNone /\ exists c, x = PyStr c /\ In c all) ->
  forall x w,
    In (x, w)
      (fold_left (fun d kv => dict_set (fst kv) (snd kv) d)
         (map (fun col => (col, PyNone)) cols) d) ->
    w = PyNone /\ exists c, x = PyStr c /\ In c all.
Proof.
  revert d. induction cols as [|a cols IH]; intros d Hincl Hd; simpl.
  - exact Hd.
  - apply IH.
    + intros c Hc. apply Hincl. now right.
    + intros x w Hin. apply dict_set_entries in Hin as [Hin|[-> ->]].
      * now apply Hd.
      * split; [reflexivity|]. exists a. split; [reflexivity|].
        apply Hincl. now left.
Qed.

Lemma null_row_get (cols : list text) (c : text) :
  In c cols -> dict_get c (null_row cols) = Some PyNone.
Proof. intros H. apply null_row_acc_get. now left. Qed.

Lemma null_row_entries (cols : list text) (x w : pyval) :
  In (x, w) (null_row cols) -> w = PyNone /\ exists c, x = PyStr c /\ In c cols.
Proof.
  apply (null_row_acc_entries cols cols []).
  - apply incl_refl.
  - intros ? ? [].
Qed.

(** ** The result normaliser *)

(** What [execute_sql_query] does, case by case. *)
Lemma execute_sql_query_cases
    (read_sql_query : pyval -> outcome dataframe) (sql_query : pyval)
    (log : list event) :
  match slice100 sql_query with
  | Raise msg =>
    execute_sql_query read_sql_query sql_query log
    = (Return (error_dict msg), log)
  | Return _ =>
    match read_sql_query sql_query with
    | Raise msg =>
      execute_sql_query read_sql_query sql_query log
      = (Return (error_dict msg), log ++ [StoreQuery sql_query])
    | Return df =>
      execute_sql_query read_sql_query sql_query log
      = (Return
           (success_dict
              (if df_empty df && (0 <? length (df_columns df))%nat
               then [PyDict (null_row (df_columns df))]
               else to_dict_records df)
              (df_columns df)),
         log ++ [StoreQuery sql_query])
    end
  end.
Proof.
  unfold execute_sql_query, try_except, bind, lift, query_store, ret.
  destruct (slice100 sql_query); [|reflexivity].
  destruct (read_sql_query sql_query) as [df|msg]; reflexivity.
Qed.

(** C1.  When the store returns a frame with at least one column and no
    row, the result carries exactly one row, which maps every column name to
    null and has no other entry; [row_count] is 1 and [columns] is the list
    of the column names. *)
Theorem empty_result_synthesis
    (read_sql_query : pyval -> outcome dataframe) (sql_query sl : pyval)
    (cols : list text) (log : list event) :
  cols <> [] ->
  slice100 sql_query = Return sl ->
  read_sql_query sql_query = Return (DataFrame cols []) ->
  exists row,
    execute_sql_query read_sql_query sql_query log
    = (Return
         [(PyStr (txt "success"), PyBool true);
          (PyStr (txt "error"), PyNone);
          (PyStr (txt "data"), PyList [PyDict row]);
          (PyStr (txt "row_count"), PyInt 1);
          (PyStr (txt "columns"), PyList (map PyStr cols))],
       log ++ [StoreQuery sql_query])
    /\ (forall c, In c cols -> dict_get c row = Some PyNone)
    /\ (forall x w, In (x, w) row ->
                   w = PyNone /\ exists c, x = PyStr c /\ In c cols).
Proof.
  intros Hcols Hsl Hdf.
  pose proof (execute_sql_query_cases read_sql_query sql_query log) as H.
  rewrite Hsl, Hdf in H.
  exists (null_row cols). split; [|split].
  - rewrite H. destruct cols as [|c cols]; [contradiction|reflexivity].
  - apply null_row_get.
  - apply null_row_entries.
Qed.

(** The example of the specification: columns [a] and [b], no row. *)
Lemma empty_result_synthesis_witness :
  exists row,
    execute_sql_query (fun _ => Return (DataFrame [txt "a"; txt "b"] []))
      (PyStr (txt "SELECT a, b FROM t WHERE 1 = 0")) []
    = (Return
         [(PyStr (txt "success"), PyBool true);
          (PyStr (txt "error"), PyNone);
          (PyStr (txt "data"), PyList [PyDict row]);
          (PyStr (txt "row_count"), PyInt 1);
          (PyStr (txt "columns"), PyList (map PyStr [txt "a"; txt "b"]))],
       [] ++ [StoreQuery (PyStr (txt "SELECT a, b FROM t WHERE 1 = 0"))])
    /\ (forall c, In c [txt "a"; txt "b"] -> dict_get c row = Some PyNone)
    /\ (forall x w, In (x, w) row ->
                   w = PyNone /\
                   exists c, x = PyStr c /\ In c [txt "a"; txt "b"]).
Proof.
  apply (empty_result_synthesis _ _
           (PyStr (txt "SELECT a, b FROM t WHERE 1 = 0"))).
  - discriminate.
  - reflexivity.
  - reflexivity.
Defined.

Lemma empty_result_example :
  fst (execute_sql_query (fun _ => Return (DataFrame [txt "a"; txt "b"] []))
         (PyStr (txt "SELECT a, b FROM t WHERE 1 = 0")) [])
  = Return
      (success_dict
         [PyDict [(PyStr (txt "a"), PyNone); (PyStr (txt "b"), PyNone)]]
         [txt "a"; txt "b"]).
Proof. reflexivity. Qed.

(** C4.  When the query fails, whether the subscript of the log line or the
    store raises, the result is exactly the dictionary with [success] false,
    the message of the exception under [error] and [data] null; it has no
    [row_count] and no [columns]. *)
Theorem error_shape
    (read_sql_query : pyval -> outcome dataframe) (sql_query : pyval)
    (msg : text) (log : list event) :
  slice100 sql_query = Raise msg \/
  ((exists sl, slice100 sql_query = Return sl) /\
   read_sql_query sql_query = Raise msg) ->
  let result := fst (execute_sql_query read_sql_query sql_query log) in
  result
  = Return
      [(PyStr (txt "success"), PyBool false);
       (PyStr (txt "error"), PyStr msg);
       (PyStr (txt "data"), PyNone)]
  /\ (forall d, result = Return d ->
                dict_get (txt "row_count") d = None /\
                dict_get (txt "columns") d = None).
Proof.
  intros H result.
  assert (Hres : result = Return (error_dict msg)).
  { unfold result.
    pose proof (execute_sql_query_cases read_sql_query sql_query log) as Hc.
    destruct H as [H|[[sl Hsl] H]].
    - rewrite H in Hc. now rewrite Hc.
    - rewrite Hsl, H in Hc. now rewrite Hc. }
  split; [exact Hres|].
  intros d Hd. rewrite Hres in Hd. inversion Hd; subst d. now split.
Qed.

(** The example of the specification: the store rejects the statement. *)
Lemma error_shape_witness :
  let result :=
    fst (execute_sql_query (fun _ => Raise (txt "syntax error near SELEC"))
           (PyStr (txt "SELEC 1")) []) in
  result
  = Return
      [(PyStr (txt "success"), PyBool false);
       (PyStr (txt "error"), PyStr (txt "syntax error near SELEC"));
       (PyStr (txt "data"), PyNone)]
  /\ (forall d, result = Return d ->
                dict_get (txt "row_count") d = None /\
                dict_get (txt "columns") d = None).
Proof.
  apply error_shape. right. split; [|reflexivity].
  exists (PyStr (txt "SELEC 1")). reflexivity.
Defined.

(** ** The handler *)

Section Handler.

Variable literal_eval : text -> option pyval.
Variable read_sql_query : pyval -> outcome dataframe.
Variable timestamp : text.

(** Every path through [query_sql]. *)
Lemma query_sql_cases (raw_data : text) (log : list event) :
  query_sql literal_eval read_sql_query timestamp raw_data log =
  match fix_json_format literal_eval raw_data with
  | Raise e =>
    (Return (Response (failure_body (txt "JSON格式错误: " ++ e)) 400), log)
  | Return data =>
    if negb (truthy data) then
      (Return (Response (failure_body (txt "请求体不能为空")) 400), log)
    else
      match py_get data (txt "sql") with
      | Raise e => (Return (Response (server_error_body e timestamp) 500), log)
      | Return sql_query =>
        if negb (truthy sql_query) then
          (Return (Response (failure_body (txt "缺少sql参数")) 400), log)
        else
          match slice100 sql_query with
          | Raise msg =>
            (Return (Response (query_error_body msg sql_query timestamp) 400),
             log)
          | Return _ =>
            match read_sql_query sql_query with
            | Raise msg =>
              (Return (Response (query_error_body msg sql_query timestamp) 400),
               log ++ [StoreQuery sql_query])
            | Return df =>
              (Return
                 (Response
                    (query_ok_body (shaped_rows df) (df_columns df)
                       sql_query timestamp) 200),
               log ++ [StoreQuery sql_query])
            end
          end
      end
  end.
Proof.
  unfold query_sql, try_except.
  destruct (fix_json_format literal_eval raw_data) as [data|e]; [|reflexivity].
  destruct (truthy data); simpl; [|reflexivity].
  unfold bind at 1, lift at 1.
  destruct (py_get data (txt "sql")) as [sql_query|e]; [|reflexivity].
  destruct (truthy sql_query); simpl; [|reflexivity].
  unfold bind at 1.
  pose proof (execute_sql_query_cases read_sql_query sql_query log) as H.
  destruct (slice100 sql_query) as [sl|msg].
  - destruct (read_sql_query sql_query) as [df|msg]; rewrite H; reflexivity.
  - rewrite H. reflexivity.
Qed.

End Handler.

(** *** The invariant of the response envelope *)

(** C8.  Every envelope the program builds satisfies the invariant: the
    answer of [query_sql] on every path (and the handler always answers),
    the dictionary of [execute_sql_query] on every path, and the bodies of
    the 404 and 405 handlers. *)
Theorem envelope_invariant :
  (forall literal_eval read_sql_query timestamp raw_data log,
     exists resp log',
       query_sql literal_eval read_sql_query timestamp raw_data log
       = (Return resp, log') /\
       envelope_ok (body resp) = true) /\
  (forall read_sql_query sql_query log,
     exists d log',
       execute_sql_query read_sql_query sql_query log = (Return d, log') /\
       envelope_ok (PyDict d) = true) /\
  envelope_ok (body not_found) = true /\
  envelope_ok (body method_not_allowed) = true.
Proof.
  split; [|split; [|split; reflexivity]].
  - intros le store ts raw log. rewrite query_sql_cases.
    destruct (fix_json_format le raw) as [data|e];
      [|eexists; eexists; split; reflexivity].
    destruct (truthy data); simpl;
      [|eexists; eexists; split; reflexivity].
    destruct (py_get data (txt "sql")) as [q|e];
      [|eexists; eexists; split; reflexivity].
    destruct (truthy q); simpl;
      [|eexists; eexists; split; reflexivity].
    destruct (slice100 q);
      [|eexists; eexists; split; reflexivity].
    destruct (store q); eexists; eexists; split; reflexivity.
  - intros store q log.
    pose proof (execute_sql_query_cases store q log) as H.
    destruct (slice100 q);
      [|rewrite H; eexists; eexists; split; reflexivity].
    destruct (store q); rewrite H; eexists; eexists; split; reflexivity.
Qed.

(** *** Failing fast *)

(** C9.  When the body cannot be decoded, or is decoded without a usable
    [sql] field, the handler answers with status 400 and the failure
    envelope, and the store has not been queried: the list of the queries
    handed to the store is as it was. *)
Theorem fail_fast (literal_eval : text -> option pyval)
    (read_sql_query : pyval -> outcome dataframe) (timestamp raw_data : text)
    (log : list event) :
  decode_error literal_eval raw_data \/ missing_field literal_eval raw_data ->
  exists msg,
    query_sql literal_eval read_sql_query timestamp raw_data log
    = (Return (Response (failure_body msg) 400), log).
Proof.
  intros H. rewrite query_sql_cases.
  destruct H as [[e He]|[data [Hd H]]].
  - rewrite He. eexists. reflexivity.
  - rewrite Hd. destruct H as [H|[q [Hq H]]].
    + rewrite H. eexists. reflexivity.
    + destruct (truthy data); simpl; [|eexists; reflexivity].
      rewrite Hq, H. eexists. reflexivity.
Qed.

(** A body that no method can decode, and a body without [sql]. *)
Lemma fail_fast_witness :
  (exists msg,
     query_sql literal_eval_sample (fun _ => Raise []) [] (txt "hello") []
     = (Return (Response (failure_body msg) 400), [])) /\
  (exists msg,
     query_sql literal_eval_sample (fun _ => Raise []) []
       (txt "{" ++ quoted (txt "q") ++ txt ": 1}") []
     = (Return (Response (failure_body msg) 400), [])).
Proof.
  split.
  - apply fail_fast. left. exists msg_unparseable. reflexivity.
  - apply fail_fast. right.
    exists (PyDict [(PyStr (txt "q"), PyInt 1)]). split; [reflexivity|].
    right. exists PyNone. split; reflexivity.
Defined.

(** *** Decoded values that are not mappings *)

(** C10 as stated fails: the body [[]] decodes to the empty list, which is
    not a mapping, and is answered with status 400 by the test for an empty
    request, before [sql] is read. *)
Lemma non_mapping_not_always_500 :
  ~ (forall literal_eval read_sql_query timestamp raw_data v log,
       fix_json_format literal_eval raw_data = Return v ->
       is_mapping v = false ->
       exists resp log',
         query_sql literal_eval read_sql_query timestamp raw_data log
         = (Return resp, log') /\ status resp = 500).
Proof.
  intros H.
  destruct (H literal_eval_sample (fun _ => Raise []) [] (txt "[]") (PyList []) []
              eq_refl eq_refl) as [resp [log' [Hq Hs]]].
  vm_compute in Hq. inversion Hq; subst resp. discriminate.
Qed.

(** C10, amended.  When the body decodes to a value that is truthy and not
    a mapping, reading [sql] raises, and the handler answers with status 500
    and the server-error envelope, which carries the message of the
    exception; the store is not queried. *)
Theorem non_mapping_server_error (literal_eval : text -> option pyval)
    (read_sql_query : pyval -> outcome dataframe) (timestamp raw_data : text)
    (v : pyval) (log : list event) :
  fix_json_format literal_eval raw_data = Return v ->
  is_mapping v = false ->
  truthy v = true ->
  query_sql literal_eval read_sql_query timestamp raw_data log
  = (Return
       (Response
          (server_error_body
             ([SQ] ++ type_name v ++ [SQ] ++ txt " object has no attribute 'get'")
             timestamp) 500),
     log).
Proof.
  intros Hd Hm Ht. rewrite query_sql_cases, Hd, Ht. simpl.
  destruct v; try discriminate; reflexivity.
Qed.

Lemma non_mapping_server_error_witness :
  query_sql literal_eval_sample (fun _ => Raise []) (txt "2026-01-01T00:00:00")
    (txt "[1,2]") []
  = (Return
       (Response
          (server_error_body
             ([SQ] ++ type_name (PyList [PyInt 1; PyInt 2]) ++ [SQ]
              ++ txt " object has no attribute 'get'")
             (txt "2026-01-01T00:00:00")) 500),
     []).
Proof.
  apply non_mapping_server_error; reflexivity.
Defined.

(** The other side of the test for an empty request: a decoded value that
    is falsy, mapping or not, is answered with status 400. *)
Lemma falsy_body_client_error (literal_eval : text -> option pyval)
    (read_sql_query : pyval -> outcome dataframe) (timestamp raw_data : text)
    (v : pyval) (log : list event) :
  fix_json_format literal_eval raw_data = Return v ->
  truthy v = false ->
  query_sql literal_eval read_sql_query timestamp raw_data log
  = (Return (Response (failure_body (txt "请求体不能为空")) 400), log).
Proof.
  intros Hd Ht. now rewrite query_sql_cases, Hd, Ht.
Qed.

(** ** The decoder *)

(** C5 as stated fails: the body with the one field [q] decodes to a
    mapping without [sql]. *)
Lemma decoded_request_may_lack_sql :
  ~ (forall literal_eval raw_data v,
       fix_json_format literal_eval raw_data = Return v ->
       exists d q,
         v = PyDict d /\ dict_get (txt "sql") d = Some (PyStr q) /\ q <> []).
Proof.
  intros H.
  destruct (H literal_eval_sample (txt "{" ++ quoted (txt "q") ++ txt ": 1}")
              (PyDict [(PyStr (txt "q"), PyInt 1)]) eq_refl)
    as [d [q [Hv [Hq _]]]].
  inversion Hv; subst d. discriminate.
Qed.

(** C5, amended.  When the handler hands a query to the store, the body
    was decoded to a mapping whose [sql] entry is there and truthy, hence
    not empty when it is a string, and that entry is the query handed
    over. *)
Theorem executed_request_has_sql (literal_eval : text -> option pyval)
    (read_sql_query : pyval -> outcome dataframe) (timestamp raw_data : text)
    (log log' : list event) (r : outcome response) :
  query_sql literal_eval read_sql_query timestamp raw_data log = (r, log') ->
  log' <> log ->
  exists d q,
    fix_json_format literal_eval raw_data = Return (PyDict d) /\
    dict_get (txt "sql") d = Some q /\
    truthy q = true /\
    (forall s, q = PyStr s -> s <> []) /\
    log' = log ++ [StoreQuery q].
Proof.
  rewrite query_sql_cases. intros H Hlog.
  destruct (fix_json_format literal_eval raw_data) as [data|e];
    [|inversion H; congruence].
  destruct (truthy data); simpl in H; [|inversion H; congruence].
  destruct (py_get data (txt "sql")) as [q|e] eqn:Hget;
    [|inversion H; congruence].
  destruct (truthy q) eqn:Hq; simpl in H; [|inversion H; congruence].
  assert (Hl : log' = log ++ [StoreQuery q]).
  { destruct (slice100 q); [|inversion H; congruence].
    destruct (read_sql_query q); now inversion H. }
  destruct data; try discriminate. simpl in Hget.
  exists d, q. split; [reflexivity|].
  destruct (dict_get (txt "sql") d) as [x|].
  - inversion Hget; subst x. repeat split; auto.
    intros s -> ->. discriminate.
  - inversion Hget; subst q. discriminate.
Qed.

Lemma executed_request_has_sql_witness :
  exists d q,
    fix_json_format literal_eval_sample
      (txt "{" ++ quoted (txt "sql") ++ txt ": " ++ quoted (txt "SELECT 1")
       ++ txt "}")
    = Return (PyDict d) /\
    dict_get (txt "sql") d = Some q /\
    truthy q = true /\
    (forall s, q = PyStr s -> s <> []) /\
    [StoreQuery (PyStr (txt "SELECT 1"))] = [] ++ [StoreQuery q].
Proof.
  apply (executed_request_has_sql literal_eval_sample
           (fun _ => Return (DataFrame [txt "1"] [[PyInt 1]])) []
           _ [] _
           (Return
              (Response
                 (query_ok_body [PyDict [(PyStr (txt "1"), PyInt 1)]]
                    [txt "1"] (PyStr (txt "SELECT 1")) []) 200))).
  - reflexivity.
  - discriminate.
Defined.

(** C6 as stated fails: the text of a Python tuple reaches method 5, its
    literal evaluation is not a mapping, and the decoder returns it. *)
Lemma literal_value_not_checked :
  ~ (forall literal_eval raw_data v,
       method1 raw_data = None -> method2 raw_data = None ->
       method3 raw_data = None -> method4 raw_data = None ->
       literal_eval raw_data = Some v ->
       is_mapping v = false ->
       fix_json_format literal_eval raw_data = Raise msg_unparseable).
Proof.
  intros H.
  specialize (H literal_eval_sample (txt "(1, 2)")
                (PyTuple [PyInt 1; PyInt 2])
                eq_refl eq_refl eq_refl eq_refl eq_refl eq_refl).
  vm_compute in H. discriminate.
Qed.

(** C6, amended.  For every text that reaches method 5, the decoder returns
    whatever the literal evaluation yields, a mapping or not; the value is
    not inspected. *)
Theorem literal_value_returned (literal_eval : text -> option pyval)
    (raw_data : text) (v : pyval) :
  method1 raw_data = None -> method2 raw_data = None ->
  method3 raw_data = None -> method4 raw_data = None ->
  literal_eval raw_data = Some v ->
  fix_json_format literal_eval raw_data = Return v.
Proof.
  intros H1 H2 H3 H4 H5. unfold fix_json_format, method5.
  now rewrite H1, H2, H3, H4, H5.
Qed.

Lemma literal_value_returned_witness :
  fix_json_format literal_eval_sample (txt "(1, 2)")
  = Return (PyTuple [PyInt 1; PyInt 2]).
Proof.
  apply literal_value_returned; reflexivity.
Defined.

(** C3.  When the five methods fail, the decoder raises; the exception
    carries the fixed message and nothing of the text.  The text then has no
    field matched by the pattern, and the handler answers it with the
    failure envelope, whose [data] is null. *)
Theorem exhaustion_failure (literal_eval : text -> option pyval)
    (raw_data : text) :
  method1 raw_data = None -> method2 raw_data = None ->
  method3 raw_data = None -> method4 raw_data = None ->
  method5 literal_eval raw_data = None ->
  fix_json_format literal_eval raw_data = Raise msg_unparseable /\
  re_search sql_pattern raw_data = None /\
  forall read_sql_query timestamp log,
    query_sql literal_eval read_sql_query timestamp raw_data log
    = (Return
         (Response (failure_body (txt "JSON格式错误: " ++ msg_unparseable)) 400),
       log).
Proof.
  intros H1 H2 H3 H4 H5.
  assert (Hf : fix_json_format literal_eval raw_data = Raise msg_unparseable).
  { unfold fix_json_format. now rewrite H1, H2, H3, H4, H5. }
  split; [exact Hf|split].
  - unfold method4 in H4.
    destruct (re_search sql_pattern raw_data); [discriminate|reflexivity].
  - intros store ts log. now rewrite query_sql_cases, Hf.
Qed.

Lemma exhaustion_failure_witness :
  fix_json_format literal_eval_sample (txt "hello") = Raise msg_unparseable /\
  re_search sql_pattern (txt "hello") = None /\
  forall read_sql_query timestamp log,
    query_sql literal_eval_sample read_sql_query timestamp (txt "hello") log
    = (Return
         (Response (failure_body (txt "JSON格式错误: " ++ msg_unparseable)) 400),
       log).
Proof.
  apply exhaustion_failure; reflexivity.
Defined.

(** The decoder raises only in that case, and only with that message. *)
Lemma decode_raises_iff (literal_eval : text -> option pyval)
    (raw_data e : text) :
  fix_json_format literal_eval raw_data = Raise e <->
  (method1 raw_data = None /\ method2 raw_data = None /\
   method3 raw_data = None /\ method4 raw_data = None /\
   method5 literal_eval raw_data = None /\ e = msg_unparseable).
Proof.
  unfold fix_json_format.
  destruct (method1 raw_data), (method2 raw_data), (method3 raw_data),
    (method4 raw_data), (method5 literal_eval raw_data);
    split; try discriminate; try (intros (? & ? & ? & ? & ? & ?); discriminate).
  - intros H. inversion H. repeat split.
  - intros (_ & _ & _ & _ & _ & ->). reflexivity.
Qed.

(* ================================================================== *)
(** ** The matcher on the pattern of methods 2 and 4 *)

Lemma strip_prefix_app (p s : text) : strip_prefix p (p ++ s) = Some s.
Proof.
  induction p as [|x p IH]; simpl; [reflexivity|].
  now rewrite N.eqb_refl.
Qed.

Lemma strip_prefix_inv (p s r : text) : strip_prefix p s = Some r -> s = p ++ r.
Proof.
  revert s. induction p as [|x p IH]; intros s; simpl.
  - now intros [= ->].
  - destruct s as [|y s]; [discriminate|].
    destruct (N.eqb_spec x y) as [->|]; [|discriminate].
    intros H. now rewrite (IH _ H).
Qed.

Lemma starts_with_inv (p s : text) :
  starts_with p s = true -> exists r, s = p ++ r.
Proof.
  unfold starts_with. destruct (strip_prefix p s) as [r|] eqn:E; [|discriminate].
  intros _. exists r. now apply strip_prefix_inv.
Qed.

Lemma span_spec (p : N -> bool) (s : text) :
  s = fst (span p s) ++ snd (span p s) /\
  forallb p (fst (span p s)) = true /\
  match snd (span p s) with [] => True | x :: _ => p x = false end.
Proof.
  induction s as [|c s IH]; simpl; [now repeat split|].
  destruct (p c) eqn:E; simpl.
  - destruct (span p s) as [a b]; simpl in *.
    destruct IH as (-> & Ha & Hb). rewrite E. now repeat split.
  - now repeat split.
Qed.

Lemma span_app (p : N -> bool) (a b : text) :
  forallb p a = true ->
  match b with [] => True | x :: _ => p x = false end ->
  span p (a ++ b) = (a, b).
Proof.
  intros Ha Hb. induction a as [|c a IH]; simpl in *.
  - destruct b as [|x b]; simpl; [reflexivity|now rewrite Hb].
  - apply andb_true_iff in Ha as [Hc Ha]. now rewrite Hc, IH.
Qed.

Lemma consumed_app (a b : text) : consumed (a ++ b) b = a.
Proof.
  unfold consumed. rewrite length_app.
  replace (length a + length b - length b)%nat with (length a) by lia.
  rewrite firstn_app, Nat.sub_diag, firstn_all. simpl. apply app_nil_r.
Qed.

(** The matcher fails when its continuation fails on all that can remain:
    here for texts with a property that their tails inherit. *)
Lemma rmatch_fail (P : text -> Prop) :
  (forall x s, P (x :: s) -> P s) ->
  forall r s cs k,
    (forall s' cs', P s' -> k s' cs' = None) ->
    P s -> rmatch r s cs k = None.
Proof.
  intros Htl. induction r as [c| |p|r1 IH1 r2 IH2|r1 IH1|i r1 IH1];
    intros s cs k Hk Hs; simpl.
  - destruct s as [|x s]; [reflexivity|].
    destruct (x =? c); [|reflexivity]. eauto.
  - destruct s as [|x s]; [reflexivity|]. eauto.
  - destruct s as [|x s]; [reflexivity|].
    destruct (p x); [|reflexivity]. eauto.
  - apply IH1; [|exact Hs]. intros s' cs' Hs'. now apply IH2.
  - generalize (length s) as n. intros n. revert s cs Hs.
    induction n as [|n IHn]; intros s cs Hs; [now apply Hk|].
    rewrite IH1; [now apply Hk| |exact Hs].
    intros s' cs' Hs'. destruct (length s' <? length s)%nat; [|reflexivity].
    now apply IHn.
  - apply IH1; [|exact Hs]. intros s' cs' Hs'. now apply Hk.
Qed.

Lemma rmatch_RLits (p : text) (r : regex) (s : text) (cs : caps)
    (k : text -> caps -> option (caps * text)) :
  rmatch (RLits p r) s cs k =
  match strip_prefix p s with
  | Some s' => rmatch r s' cs k
  | None => None
  end.
Proof.
  revert s. induction p as [|x p IH]; intros s; simpl; [reflexivity|].
  destruct s as [|y s]; [reflexivity|].
  rewrite (N.eqb_sym x y). destruct (y =? x); [apply IH|reflexivity].
Qed.

(** A greedy repetition of a class reads one character and goes on, and
    falls back on stopping here. *)
Lemma star_set_unfold (p : N -> bool) (s : text) (cs : caps)
    (k : text -> caps -> option (caps * text)) :
  rmatch (RStar (RSet p)) s cs k =
  match s with
  | [] => k s cs
  | x :: s' =>
    if p x then
      match rmatch (RStar (RSet p)) s' cs k with
      | Some res => Some res
      | None => k s cs
      end
    else k s cs
  end.
Proof.
  destruct s as [|x s']; [reflexivity|].
  cbn [rmatch length]. destruct (p x); [|reflexivity].
  assert (E : (length s' <? S (length s'))%nat = true)
    by (apply Nat.ltb_lt; lia).
  rewrite E. reflexivity.
Qed.

(** When the continuation succeeds at the end of the longest run, that is
    the match. *)
Lemma star_set_first (p : N -> bool) (s : text) (cs : caps)
    (k : text -> caps -> option (caps * text)) (res : caps * text) :
  k (snd (span p s)) cs = Some res ->
  rmatch (RStar (RSet p)) s cs k = Some res.
Proof.
  induction s as [|x s IH]; rewrite star_set_unfold; cbn [span]; [auto|].
  destruct (p x); [|auto].
  destruct (span p s) as [a b]; cbn [snd] in *. intros H. now rewrite IH.
Qed.

(** When the continuation fails wherever a character of the class comes
    next, only the end of the longest run counts. *)
Lemma star_set_det (p : N -> bool) (s : text) (cs : caps)
    (k : text -> caps -> option (caps * text)) :
  (forall x s' cs', p x = true -> k (x :: s') cs' = None) ->
  rmatch (RStar (RSet p)) s cs k = k (snd (span p s)) cs.
Proof.
  intros Hk. induction s as [|x s IH]; rewrite star_set_unfold;
    [reflexivity|].
  rewrite IH. cbn [span]. destruct (p x) eqn:E; [|reflexivity].
  destruct (span p s) as [a b]; cbn [snd].
  destruct (k b cs); [reflexivity|]. now apply Hk.
Qed.

Lemma rmatch_cat (r1 r2 : regex) (s : text) (cs : caps)
    (k : text -> caps -> option (caps * text)) :
  rmatch (RCat r1 r2) s cs k
  = rmatch r1 s cs (fun s' cs' => rmatch r2 s' cs' k).
Proof. reflexivity. Qed.

Lemma rmatch_lit (c : N) (s : text) (cs : caps)
    (k : text -> caps -> option (caps * text)) :
  rmatch (RLit c) s cs k
  = match s with
    | x :: s' => if x =? c then k s' cs else None
    | [] => None
    end.
Proof. reflexivity. Qed.

Lemma rmatch_group (i : nat) (r : regex) (s : text) (cs : caps)
    (k : text -> caps -> option (caps * text)) :
  rmatch (RGroup i r) s cs k
  = rmatch r s cs (fun s' cs' => k s' ((i, consumed s s') :: cs')).
Proof. reflexivity. Qed.

(** A repetition whose body cannot start here stops here. *)
Lemma rmatch_star_stop (r : regex) (s : text) (cs : caps)
    (k : text -> caps -> option (caps * text)) :
  (forall k', rmatch r s cs k' = None) ->
  rmatch (RStar r) s cs k = k s cs.
Proof.
  intros H. cbn [rmatch]. destruct (length s); [reflexivity|]. now rewrite H.
Qed.

Lemma not_quote_false (x : N) : not_quote x = false -> x = DQ.
Proof.
  unfold not_quote. destruct (N.eqb_spec x DQ); [auto|discriminate].
Qed.

Lemma is_space_not_quote (x : N) : is_space x = true -> (x =? DQ) = false.
Proof.
  destruct (N.eqb_spec x DQ) as [->|]; [discriminate|reflexivity].
Qed.

(** The content never holds a quote, so the part of the pattern that allows
    a backslash with any character behind it is never taken: the match
    always ends at the first quote behind the opening one. *)
Theorem match_at_sql_pattern (s : text) :
  match_at sql_pattern s =
  match sql_field_at s with
  | Some (ws, c, rest) =>
    Some ([(0%nat, sql_key ++ ws ++ quoted c); (1%nat, c)], rest)
  | None => None
  end.
Proof.
  unfold match_at, sql_pattern, sql_field_at.
  rewrite rmatch_RLits.
  destruct (strip_prefix sql_key s) as [s1|] eqn:Hkey; [|reflexivity].
  apply strip_prefix_inv in Hkey. subst s.
  rewrite rmatch_cat, star_set_det.
  2:{ intros x s' cs' Hx. rewrite rmatch_cat, rmatch_lit.
      now rewrite (is_space_not_quote x Hx). }
  destruct (span_spec is_space s1) as (Hs1 & Hws & _).
  destruct (span is_space s1) as [ws s2]. cbn [fst snd] in *. subst s1.
  rewrite rmatch_cat, rmatch_lit.
  destruct s2 as [|q s3]; [reflexivity|].
  destruct (N.eqb_spec q DQ) as [->|]; [|reflexivity].
  rewrite rmatch_cat, rmatch_group, rmatch_cat.
  destruct (span_spec not_quote s3) as (Hs3 & Hc & Hr).
  destruct (span not_quote s3) as [c r] eqn:Hspan. cbn [fst snd] in *.
  assert (Htl : forall x t, forallb not_quote (x :: t) = true ->
                            forallb not_quote t = true).
  { intros x t H. simpl in H. now apply andb_true_iff in H as [_ H]. }
  destruct r as [|x rest].
  - rewrite app_nil_r in Hs3. subst c.
    rewrite (rmatch_fail _ Htl); auto.
    intros s' cs' Hs'. apply (rmatch_fail _ Htl); auto.
    intros t cs'' Ht. rewrite rmatch_lit. destruct t as [|y t]; [reflexivity|].
    simpl in Ht. apply andb_true_iff in Ht as [Hy _].
    unfold not_quote in Hy. destruct (y =? DQ); [discriminate|reflexivity].
  - apply not_quote_false in Hr. subst x.
    erewrite star_set_first.
    2:{ rewrite Hspan. cbn [snd]. rewrite rmatch_star_stop.
        - rewrite rmatch_lit, N.eqb_refl. reflexivity.
        - intros k'. now rewrite rmatch_cat, rmatch_lit. }
    subst s3. rewrite consumed_app.
    replace (sql_key ++ ws ++ DQ :: c ++ DQ :: rest)
      with ((sql_key ++ ws ++ quoted c) ++ rest).
    + now rewrite consumed_app.
    + unfold quoted. rewrite <- !app_assoc. simpl.
      now rewrite <- !app_assoc.
Qed.

Lemma sql_field_at_inv (s ws c rest : text) :
  sql_field_at s = Some (ws, c, rest) ->
  s = (sql_key ++ ws ++ quoted c) ++ rest /\
  forallb is_space ws = true /\ forallb not_quote c = true.
Proof.
  unfold sql_field_at.
  destruct (strip_prefix sql_key s) as [s1|] eqn:Hkey; [|discriminate].
  apply strip_prefix_inv in Hkey.
  destruct (span_spec is_space s1) as (Hs1 & Hws & _).
  destruct (span is_space s1) as [ws' s2]. cbn [fst snd] in *.
  destruct s2 as [|q s3]; [discriminate|].
  destruct (N.eqb_spec q DQ) as [->|]; [|discriminate].
  destruct (span_spec not_quote s3) as (Hs3 & Hc & Hr).
  destruct (span not_quote s3) as [c' r]. cbn [fst snd] in *.
  destruct r as [|x rest']; [discriminate|].
  apply not_quote_false in Hr. subst x.
  intros [= -> -> ->]. subst s s1 s3. repeat split; auto.
  unfold quoted. rewrite <- !app_assoc. simpl. now rewrite <- !app_assoc.
Qed.

Lemma sql_field_at_complete (ws c rest : text) :
  forallb is_space ws = true -> forallb not_quote c = true ->
  sql_field_at ((sql_key ++ ws ++ quoted c) ++ rest) = Some (ws, c, rest).
Proof.
  intros Hws Hc. unfold sql_field_at, quoted.
  rewrite <- !app_assoc, strip_prefix_app.
  simpl. rewrite <- !app_assoc. simpl.
  rewrite (span_app is_space ws (DQ :: c ++ DQ :: rest) Hws eq_refl).
  rewrite N.eqb_refl.
  now rewrite (span_app not_quote c (DQ :: rest) Hc eq_refl).
Qed.

(** [re.search] returns the match at the first position that has one. *)
Lemma search_from_spec (r : regex) (before s : text) (m : match_obj) :
  search_from r before s = Some m ->
  exists pre s1,
    s = pre ++ s1 /\
    m_before m = rev before ++ pre /\
    match_at r s1 = Some (m_groups m, m_after m) /\
    forall p1 x p2, pre = p1 ++ x :: p2 -> match_at r (x :: p2 ++ s1) = None.
Proof.
  revert before. induction s as [|c s IH]; intros before; simpl.
  - destruct (match_at r []) as [[cs rest]|] eqn:E; [|discriminate].
    intros [= <-]. exists [], []. simpl. rewrite app_nil_r.
    repeat split; auto. intros [|? ?] ? ? ?; discriminate.
  - destruct (match_at r (c :: s)) as [[cs rest]|] eqn:E.
    + intros [= <-]. exists [], (c :: s). simpl. rewrite app_nil_r.
      repeat split; auto. intros [|? ?] ? ? ?; discriminate.
    + intros H. destruct (IH _ H) as (pre & s1 & -> & Hb & Hm & Hleft).
      exists (c :: pre), s1. repeat split; auto.
      * rewrite Hb. simpl. now rewrite <- app_assoc.
      * intros [|y p1] x p2 Hp; simpl in Hp; inversion Hp; subst.
        -- exact E.
        -- eapply Hleft. reflexivity.
Qed.

(** What [re.search] finds for the pattern: the first place where the key,
    white space and a quoted run without quotes stand. *)
Lemma re_search_sql_pattern (raw_data : text) (m : match_obj) :
  re_search sql_pattern raw_data = Some m ->
  exists ws,
    forallb is_space ws = true /\
    forallb not_quote (group 1 m) = true /\
    group 0 m = sql_key ++ ws ++ quoted (group 1 m) /\
    raw_data = m_before m ++ group 0 m ++ m_after m /\
    forall p1 x p2,
      m_before m = p1 ++ x :: p2 ->
      starts_with (group 0 m) (x :: p2 ++ group 0 m ++ m_after m) = false.
Proof.
  intros H. apply search_from_spec in H as (pre & s1 & Hs & Hb & Hm & Hleft).
  simpl in Hb. subst pre.
  rewrite match_at_sql_pattern in Hm.
  destruct (sql_field_at s1) as [[[ws c] rest]|] eqn:Hf; [|discriminate].
  inversion Hm as [[Hg Ha]]. clear Hm.
  apply sql_field_at_inv in Hf as (Hs1 & Hws & Hc).
  assert (G1 : group 1 m = c) by (unfold group; now rewrite <- Hg).
  assert (G0 : group 0 m = sql_key ++ ws ++ quoted c)
    by (unfold group; now rewrite <- Hg).
  exists ws. rewrite G1, G0, <- Ha. repeat split; auto.
  - now rewrite Hs, Hs1, <- !app_assoc.
  - intros p1 x p2 Hp.
    destruct (starts_with (sql_key ++ ws ++ quoted c)
                (x :: p2 ++ (sql_key ++ ws ++ quoted c) ++ rest)) eqn:E;
      [|reflexivity].
    apply starts_with_inv in E as [r' Hr'].
    specialize (Hleft p1 x p2 Hp).
    rewrite match_at_sql_pattern in Hleft.
    rewrite Hs1 in Hleft. rewrite Hr' in Hleft.
    now rewrite sql_field_at_complete in Hleft.
Qed.

(** ** [str.replace] *)

Lemma replace_scan_skip (old new a rest : text) :
  replace_scan old new (length a) (a ++ rest) = replace_scan old new 0 rest.
Proof.
  induction a as [|x a IH]; simpl; [|exact IH].
  destruct rest; reflexivity.
Qed.

Lemma starts_with_app (p s : text) : starts_with p (p ++ s) = true.
Proof. unfold starts_with. now rewrite strip_prefix_app. Qed.

(** The text before the first occurrence stays, the occurrence is replaced,
    and the scan goes on behind it. *)
Lemma replace_scan_first (old new pre post : text) :
  old <> [] ->
  (forall p1 x p2, pre = p1 ++ x :: p2 ->
                   starts_with old (x :: p2 ++ old ++ post) = false) ->
  replace_scan old new 0 (pre ++ old ++ post)
  = pre ++ new ++ replace_scan old new 0 post.
Proof.
  intros Hold. induction pre as [|x pre IH]; intros Hfirst.
  - destruct old as [|c old']; [contradiction|].
    cbn [app replace_scan].
    change (c :: old' ++ post) with ((c :: old') ++ post).
    rewrite starts_with_app. f_equal.
    cbn [length]. rewrite Nat.sub_succ, Nat.sub_0_r.
    apply replace_scan_skip.
  - cbn [app replace_scan].
    rewrite (Hfirst [] x pre eq_refl). f_equal. apply IH.
    intros p1 y p2 Hp. apply (Hfirst (x :: p1) y p2). now rewrite Hp.
Qed.

Lemma replace_scan_absent (old new s : text) :
  occurs_in old s = false -> replace_scan old new 0 s = s.
Proof.
  induction s as [|c s IH]; [reflexivity|].
  cbn [occurs_in replace_scan]. intros H.
  apply orb_false_iff in H as [H1 H2]. rewrite H1. f_equal. now apply IH.
Qed.

(** Replacing one character by a text, character by character. *)
Lemma str_replace_char (v : text) (x : N) (new : text) :
  str_replace v [x] new = flat_map (fun c => if c =? x then new else [c]) v.
Proof.
  unfold str_replace. induction v as [|c v IH]; [reflexivity|].
  cbn [replace_scan flat_map]. unfold starts_with. cbn [strip_prefix].
  rewrite (N.eqb_sym x c). destruct (c =? x); cbn [length Nat.sub].
  - now rewrite IH.
  - rewrite IH. reflexivity.
Qed.

(** The escaping of methods 2 and 3, character by character. *)
Lemma escape_newlines_chars (v : text) :
  escape_newlines v = flat_map escape_char v.
Proof.
  unfold escape_newlines. rewrite !str_replace_char.
  induction v as [|c v IH]; [reflexivity|].
  cbn [flat_map]. rewrite flat_map_app, IH. f_equal.
  unfold escape_char. destruct (c =? LF) eqn:E; [reflexivity|].
  cbn [flat_map]. rewrite app_nil_r. reflexivity.
Qed.

(** ** Method 2: what the rewrite does to the text *)

(** C7 as stated fails: on the compact body the rewrite also puts a space
    behind the colon, a character outside the captured span. *)
Lemma rewrite_not_in_place :
  ~ (forall raw_data, method2_fixed raw_data = spliced_in_place raw_data).
Proof.
  intros H. specialize (H compact_body). vm_compute in H. discriminate.
Qed.

Lemma rewrite_compact_body :
  method2_fixed compact_body
  = Some (txt "{" ++ quoted (txt "sql") ++ txt ": "
          ++ quoted (txt "SELECT *\nFROM t") ++ txt "}") /\
  spliced_in_place compact_body
  = Some (txt "{" ++ quoted (txt "sql") ++ txt ":"
          ++ quoted (txt "SELECT *\nFROM t") ++ txt "}").
Proof. split; reflexivity. Qed.

(** The rewritten text of method 2 when the pattern matches. *)
Lemma method2_fixed_match (raw_data : text) (m : match_obj) :
  re_search sql_pattern raw_data = Some m ->
  method2_fixed raw_data
  = Some (m_before m
          ++ sql_field (escape_newlines (group 1 m))
          ++ str_replace (m_after m) (group 0 m)
               (sql_field (escape_newlines (group 1 m)))).
Proof.
  intros H.
  destruct (re_search_sql_pattern raw_data m H)
    as (ws & Hws & Hc & Hg0 & Hraw & Hfirst).
  assert (Hne : group 0 m <> []) by (rewrite Hg0; discriminate).
  unfold method2_fixed. rewrite H. cbv zeta. f_equal.
  unfold str_replace. destruct (group 0 m) as [|g g0] eqn:Eg;
    [contradiction|].
  rewrite Hraw at 1. now apply replace_scan_first.
Qed.

Lemma str_replace_absent (s old new : text) :
  old <> [] -> occurs_in old s = false -> str_replace s old new = s.
Proof.
  intros Hne Hocc. unfold str_replace.
  destruct old; [contradiction|]. now apply replace_scan_absent.
Qed.

(** C7, amended.  When the pattern matches, the text is the part before the
    match, the matched field (key, colon, white space, quoted span) and the
    part behind it.  The rewritten text keeps the part before the match,
    puts in place of the field the key, a colon, one space and the quoted
    span with every newline and carriage return escaped, and behind it has
    the rest of the text with every further occurrence of the matched field
    replaced in the same way; so the rest is unchanged when the matched
    field does not occur in it again. *)
Theorem method2_rewrite (raw_data : text) (m : match_obj) :
  re_search sql_pattern raw_data = Some m ->
  exists ws,
    forallb is_space ws = true /\
    group 0 m = sql_key ++ ws ++ quoted (group 1 m) /\
    raw_data = m_before m ++ group 0 m ++ m_after m /\
    escape_newlines (group 1 m) = flat_map escape_char (group 1 m) /\
    method2_fixed raw_data
    = Some (m_before m
            ++ sql_field (escape_newlines (group 1 m))
            ++ str_replace (m_after m) (group 0 m)
                 (sql_field (escape_newlines (group 1 m)))) /\
    (occurs_in (group 0 m) (m_after m) = false ->
     method2_fixed raw_data
     = Some (m_before m
             ++ sql_field (escape_newlines (group 1 m))
             ++ m_after m)).
Proof.
  intros H.
  destruct (re_search_sql_pattern raw_data m H)
    as (ws & Hws & Hc & Hg0 & Hraw & Hfirst).
  exists ws. split; [exact Hws|]. split; [exact Hg0|]. split; [exact Hraw|].
  split; [apply escape_newlines_chars|].
  assert (Hne : group 0 m <> []) by (rewrite Hg0; discriminate).
  split; [now apply method2_fixed_match|].
  intros Hocc. rewrite (method2_fixed_match raw_data m H).
  now rewrite str_replace_absent.
Qed.

Lemma method2_rewrite_witness :
  exists m,
    re_search sql_pattern compact_body = Some m /\
    exists ws,
      forallb is_space ws = true /\
      group 0 m = sql_key ++ ws ++ quoted (group 1 m) /\
      compact_body = m_before m ++ group 0 m ++ m_after m /\
      escape_newlines (group 1 m) = flat_map escape_char (group 1 m) /\
      method2_fixed compact_body
      = Some (m_before m
              ++ sql_field (escape_newlines (group 1 m))
              ++ str_replace (m_after m) (group 0 m)
                   (sql_field (escape_newlines (group 1 m)))) /\
      (occurs_in (group 0 m) (m_after m) = false ->
       method2_fixed compact_body
       = Some (m_before m
               ++ sql_field (escape_newlines (group 1 m))
               ++ m_after m)).
Proof.
  eexists. split.
  - vm_compute. reflexivity.
  - apply method2_rewrite. vm_compute. reflexivity.
Defined.

(** The field twice in the text: the second occurrence is rewritten too. *)
Lemma rewrite_every_occurrence :
  method2_fixed
    (txt "{" ++ quoted (txt "sql") ++ txt ":" ++ quoted [LF] ++ txt ", "
     ++ quoted (txt "sql") ++ txt ":" ++ quoted [LF] ++ txt "}")
  = Some (txt "{" ++ quoted (txt "sql") ++ txt ": " ++ quoted (txt "\n")
          ++ txt ", "
          ++ quoted (txt "sql") ++ txt ": " ++ quoted (txt "\n") ++ txt "}").
Proof. reflexivity. Qed.

(** ** Literal newlines in the query *)

(** The running example: the direct parse fails on the literal newline,
    method 2 decodes the body, and the query comes out with the newline as
    it was sent. *)
Lemma multiline_query_decoded (literal_eval : text -> option pyval) :
  method1 multiline_body = None /\
  method2 multiline_body
  = Some (PyDict [(PyStr (txt "sql"),
                   PyStr (txt "SELECT *" ++ [LF] ++ txt "FROM t"))]) /\
  fix_json_format literal_eval multiline_body
  = Return (PyDict [(PyStr (txt "sql"),
                     PyStr (txt "SELECT *" ++ [LF] ++ txt "FROM t"))]).
Proof. repeat split. Qed.

(** C2 fails on the body with escaped quotes.  The match of the pattern
    ends at the first escaped quote, so methods 2 and 3 leave the text as it
    is and their parse fails on the newline; method 4 then returns the
    content cut at that quote: [SELECT], a space and a backslash.  The
    newline and all behind it are lost. *)
Theorem escaped_quote_truncates (literal_eval : text -> option pyval) :
  method1 escaped_quote_body = None /\
  method2_fixed escaped_quote_body = Some escaped_quote_body /\
  method2 escaped_quote_body = None /\
  method3_fixed escaped_quote_body = escaped_quote_body /\
  method3 escaped_quote_body = None /\
  fix_json_format literal_eval escaped_quote_body
  = Return (PyDict [(PyStr (txt "sql"), PyStr (txt "SELECT \"))]).
Proof. repeat split. Qed.

(** *** Queries without quotes and backslashes *)

Lemma scanstring_escaped (q rest : text) :
  forallb plain_char q = true ->
  scanstring (flat_map escape_char q ++ DQ :: rest) = Some (q, rest).
Proof.
  intros Hq. induction q as [|c q IH]; [reflexivity|].
  cbn [forallb] in Hq. apply andb_true_iff in Hq as [Hc Hq].
  specialize (IH Hq). cbn [flat_map]. rewrite <- app_assoc.
  unfold plain_char, not_quote, is_newline in Hc.
  destruct (N.eqb_spec c LF) as [->|Hlf].
  { change (escape_char LF) with [BSL; 110].
    change (scanstring ([BSL; 110] ++ flat_map escape_char q ++ DQ :: rest))
      with (push LF (scanstring (flat_map escape_char q ++ DQ :: rest))).
    now rewrite IH. }
  destruct (N.eqb_spec c CR) as [->|Hcr].
  { change (escape_char CR) with [BSL; 114].
    change (scanstring ([BSL; 114] ++ flat_map escape_char q ++ DQ :: rest))
      with (push CR (scanstring (flat_map escape_char q ++ DQ :: rest))).
    now rewrite IH. }
  assert (E : escape_char c = [c]).
  { unfold escape_char.
    destruct (N.eqb_spec c LF); [contradiction|].
    destruct (N.eqb_spec c CR); [contradiction|]. reflexivity. }
  rewrite E. cbn [app scanstring].
  destruct (c =? DQ); [discriminate|].
  destruct (c =? BSL); [discriminate|].
  cbn [negb andb] in Hc. apply orb_true_iff in Hc as [Hc|Hc].
  - apply N.leb_le in Hc. destruct (N.ltb_spec c 32); [lia|].
    now rewrite IH.
  - discriminate.
Qed.

Lemma scanstring_literal_newline (q rest : text) :
  forallb plain_char q = true ->
  existsb is_newline q = true ->
  scanstring (q ++ rest) = None.
Proof.
  intros Hq Hn. induction q as [|c q IH]; [discriminate|].
  cbn [forallb] in Hq. apply andb_true_iff in Hq as [Hc Hq].
  cbn [existsb] in Hn. cbn [app scanstring].
  unfold plain_char, not_quote in Hc.
  destruct (c =? DQ); [discriminate|].
  destruct (c =? BSL); [discriminate|].
  destruct (is_newline c) eqn:En.
  - unfold is_newline in En. apply orb_true_iff in En.
    destruct En as [E|E]; apply N.eqb_eq in E; subst c; reflexivity.
  - cbn in Hn. rewrite (IH Hq Hn). now destruct (c <? 32).
Qed.

Lemma escape_no_newline (q : text) :
  existsb is_newline q = false -> flat_map escape_char q = q.
Proof.
  induction q as [|c q IH]; [reflexivity|].
  cbn [existsb flat_map]. intros H. apply orb_false_iff in H as [Hc Hq].
  rewrite (IH Hq). unfold is_newline in Hc. apply orb_false_iff in Hc as [H1 H2].
  unfold escape_char. now rewrite H1, H2.
Qed.

Lemma scan_once_string (f : nat) (s : text) :
  scan_once (S f) (DQ :: s)
  = match scanstring s with
    | Some (str, r) => Some (PyStr str, r)
    | None => None
    end.
Proof. reflexivity. Qed.

Lemma scan_once_object (f : nat) (s : text) :
  scan_once (S f) (123 :: DQ :: s) = parse_members f [] (DQ :: s).
Proof. reflexivity. Qed.

Lemma parse_members_step (f : nat) (acc : list (pyval * pyval)) (s : text) :
  parse_members (S f) acc (DQ :: s)
  = match scanstring s with
    | None => None
    | Some (key, s2) =>
      match skip_ws s2 with
      | c2 :: s3 =>
        if c2 =? 58 then
          match scan_once f (skip_ws s3) with
          | None => None
          | Some (v, s4) =>
            match skip_ws s4 with
            | c5 :: s5 =>
              if c5 =? 125 then Some (PyDict (dict_set key v acc), s5)
              else if c5 =? 44
              then parse_members f (dict_set key v acc) (skip_ws s5)
              else None
            | [] => None
            end
          end
        else None
      | [] => None
      end
    end.
Proof. reflexivity. Qed.

Lemma sql_body_chars (v : text) :
  sql_body v
  = 123 :: DQ :: 115 :: 113 :: 108 :: DQ :: 58 :: 32 :: DQ
    :: v ++ DQ :: txt "}".
Proof.
  unfold sql_body, sql_field, quoted.
  change (txt "{" ++ (sql_key ++ txt " " ++ DQ :: v ++ [DQ]) ++ txt "}")
    with (123 :: DQ :: 115 :: 113 :: 108 :: DQ :: 58 :: 32 :: DQ
          :: ((v ++ [DQ]) ++ txt "}")).
  now rewrite <- app_assoc.
Qed.

(** The parse of a body with the one field [sql] hangs on the scan of the
    value. *)
Lemma json_loads_sql_body (v : text) :
  json_loads (sql_body v)
  = match scanstring (v ++ DQ :: txt "}") with
    | Some (str, r) =>
      match skip_ws r with
      | c :: r' =>
        if c =? 125 then
          match skip_ws r' with
          | [] => Some (PyDict [(PyStr (txt "sql"), PyStr str)])
          | _ :: _ => None
          end
        else if c =? 44 then
          match parse_members (length v + 10)
                  [(PyStr (txt "sql"), PyStr str)] (skip_ws r') with
          | Some (d, r'') =>
            match skip_ws r'' with [] => Some d | _ :: _ => None end
          | None => None
          end
        else None
      | [] => None
      end
    | None => None
    end.
Proof.
  rewrite sql_body_chars. unfold json_loads.
  change (skip_ws (123 :: DQ :: 115 :: 113 :: 108 :: DQ :: 58 :: 32 :: DQ
                   :: v ++ DQ :: txt "}"))
    with (123 :: DQ :: 115 :: 113 :: 108 :: DQ :: 58 :: 32 :: DQ
          :: v ++ DQ :: txt "}").
  cbn [length]. rewrite length_app.
  replace (length v + length (DQ :: txt "}"))%nat
    with (S (S (length v))) by (cbn; lia).
  rewrite scan_once_object, parse_members_step.
  change (scanstring (115 :: 113 :: 108 :: DQ :: 58 :: 32 :: DQ
                      :: v ++ DQ :: txt "}"))
    with (Some ([115; 113; 108], 58 :: 32 :: DQ :: v ++ DQ :: txt "}")).
  cbv iota beta.
  change (skip_ws (58 :: 32 :: DQ :: v ++ DQ :: txt "}"))
    with (58 :: 32 :: DQ :: v ++ DQ :: txt "}").
  cbv iota beta. rewrite N.eqb_refl.
  change (skip_ws (32 :: DQ :: v ++ DQ :: txt "}"))
    with (DQ :: v ++ DQ :: txt "}").
  rewrite scan_once_string.
  destruct (scanstring (v ++ DQ :: txt "}")) as [[str r]|]; [|reflexivity].
  destruct (skip_ws r) as [|c r']; [reflexivity|].
  destruct (c =? 125); [reflexivity|].
  destruct (c =? 44); [|reflexivity].
  replace (length v + 10)%nat
    with (S (S (S (S (S (S (S (S (S (S (length v))))))))))) by lia.
  reflexivity.
Qed.

Lemma search_from_unfold (r : regex) (before s : text) :
  search_from r before s
  = match match_at r s with
    | Some (cs, rest) => Some (MatchObj (rev before) cs rest)
    | None =>
      match s with
      | [] => None
      | c :: s' => search_from r (c :: before) s'
      end
    end.
Proof. destruct s; reflexivity. Qed.

Lemma plain_not_quote (q : text) :
  forallb plain_char q = true -> forallb not_quote q = true.
Proof.
  induction q as [|c q IH]; [reflexivity|]. cbn [forallb].
  intros H. apply andb_true_iff in H as [Hc Hq]. rewrite (IH Hq).
  unfold plain_char in Hc. apply andb_true_iff in Hc as [Hc _].
  apply andb_true_iff in Hc as [Hc _]. now rewrite Hc.
Qed.

(** The pattern finds the field of such a body right behind the brace. *)
Lemma re_search_sql_body (q : text) :
  forallb not_quote q = true ->
  re_search sql_pattern (sql_body q)
  = Some (MatchObj (txt "{") [(0%nat, sql_field q); (1%nat, q)] (txt "}")).
Proof.
  intros Hq. unfold re_search. rewrite search_from_unfold.
  rewrite match_at_sql_pattern.
  replace (sql_field_at (sql_body q)) with (@None (text * text * text))
    by (rewrite sql_body_chars; reflexivity).
  rewrite sql_body_chars, search_from_unfold, match_at_sql_pattern.
  replace (DQ :: 115 :: 113 :: 108 :: DQ :: 58 :: 32 :: DQ :: q ++ DQ :: txt "}")
    with ((sql_key ++ [32] ++ quoted q) ++ txt "}").
  - rewrite sql_field_at_complete; auto.
  - unfold quoted. rewrite <- !app_assoc. cbn [app]. rewrite <- app_assoc.
    reflexivity.
Qed.

Lemma json_loads_escaped_body (q : text) :
  forallb plain_char q = true ->
  json_loads (sql_body (flat_map escape_char q))
  = Some (PyDict [(PyStr (txt "sql"), PyStr q)]).
Proof.
  intros Hq. rewrite json_loads_sql_body, scanstring_escaped; auto.
Qed.

Lemma method2_sql_body (q : text) :
  forallb plain_char q = true ->
  method2 (sql_body q) = Some (PyDict [(PyStr (txt "sql"), PyStr q)]).
Proof.
  intros Hq. unfold method2.
  rewrite (method2_fixed_match _ _
             (re_search_sql_body q (plain_not_quote q Hq))).
  cbn [m_before m_after group m_groups cap_get Nat.eqb].
  rewrite str_replace_absent; [| discriminate | reflexivity].
  rewrite escape_newlines_chars. now apply json_loads_escaped_body.
Qed.

Lemma method1_sql_body_newline (q : text) :
  forallb plain_char q = true ->
  existsb is_newline q = true ->
  method1 (sql_body q) = None.
Proof.
  intros Hq Hn. unfold method1.
  now rewrite json_loads_sql_body, scanstring_literal_newline.
Qed.


(** Queries without quotes and backslashes: whatever literal newlines and
    carriage returns the query holds, the body with that query between
    quotes decodes to the mapping with that very query.  The direct
    parse does it when the query has no newline; otherwise it fails and
    method 2 does it. *)
Theorem plain_query_decoded (literal_eval : text -> option pyval) (q : text) :
  forallb plain_char q = true ->
  fix_json_format literal_eval (sql_body q)
  = Return (PyDict [(PyStr (txt "sql"), PyStr q)]) /\
  (existsb is_newline q = true ->
   method1 (sql_body q) = None /\
   method2 (sql_body q) = Some (PyDict [(PyStr (txt "sql"), PyStr q)])).
Proof.
  intros Hq.
  pose proof (method2_sql_body q Hq) as H2.
  split.
  - unfold fix_json_format.
    destruct (existsb is_newline q) eqn:Hn.
    + now rewrite (method1_sql_body_newline q Hq Hn), H2.
    + unfold method1.
      pose proof (json_loads_escaped_body q Hq) as Hesc.
      rewrite (escape_no_newline q Hn) in Hesc. now rewrite Hesc.
  - intros Hn. split; [now apply method1_sql_body_newline|exact H2].
Qed.

Lemma plain_query_decoded_witness :
  fix_json_format literal_eval_sample
    (sql_body (txt "SELECT *" ++ [LF] ++ txt "FROM t"))
  = Return (PyDict [(PyStr (txt "sql"),
                     PyStr (txt "SELECT *" ++ [LF] ++ txt "FROM t"))]) /\
  (existsb is_newline (txt "SELECT *" ++ [LF] ++ txt "FROM t") = true ->
   method1 (sql_body (txt "SELECT *" ++ [LF] ++ txt "FROM t")) = None /\
   method2 (sql_body (txt "SELECT *" ++ [LF] ++ txt "FROM t"))
   = Some (PyDict [(PyStr (txt "sql"),
                    PyStr (txt "SELECT *" ++ [LF] ++ txt "FROM t"))])).
Proof.
  apply plain_query_decoded. reflexivity.
Defined.

(* ================================================================== *)
(** ** The scanner of [json.loads] and its fuel *)

Lemma skip_ws_length (s : text) : (length (skip_ws s) <= length s)%nat.
Proof.
  induction s as [|c s IH]; simpl; [lia|].
  destruct (is_json_ws c); simpl; lia.
Qed.

Lemma push_inv (c : N) (o : option (text * text)) (str r : text) :
  push c o = Some (str, r) ->
  exists str', o = Some (str', r) /\ str = c :: str'.
Proof.
  destruct o as [[a b]|]; simpl; [|discriminate].
  intros [= <- <-]. eauto.
Qed.

Lemma scanstring_length (s str r : text) :
  scanstring s = Some (str, r) -> (length r < length s)%nat.
Proof.
  assert (Hle : (length s <= length s)%nat) by lia.
  revert Hle. generalize (length s) at 2 as n. intros n.
  revert s str r. induction n as [|n IH]; intros s str r Hle H.
  - destruct s; [discriminate|simpl in Hle; lia].
  - destruct s as [|c s1]; [discriminate|]. cbn [length] in Hle.
    cbn [scanstring] in H.
    destruct (c =? DQ).
    { inversion H; subst. cbn [length]. lia. }
    destruct (c =? BSL).
    2:{ destruct (c <? 32); [discriminate|].
        apply push_inv in H as (str' & H & _). apply IH in H; cbn [length]; lia. }
    destruct s1 as [|e s2]; [discriminate|]. cbn [length] in *.
    destruct (e =? 117).
    2:{ destruct (backslash e); [|discriminate].
        apply push_inv in H as (str' & H & _). apply IH in H; lia. }
    destruct s2 as [|h1 [|h2 [|h3 [|h4 s3]]]]; try discriminate.
    cbn [length] in *.
    destruct (hex4 h1 h2 h3 h4) as [uni|]; [|discriminate].
    assert (Hs3 : forall u, push u (scanstring s3) = Some (str, r) ->
                            (length r < S (S (S (S (S (S (length s3)))))))%nat).
    { intros u Hu. apply push_inv in Hu as (str' & Hu & _).
      apply IH in Hu; lia. }
    destruct s3 as [|b [|u [|k1 [|k2 [|k3 [|k4 s4]]]]]]; try exact (Hs3 uni H).
    destruct (is_high_surrogate uni && (b =? BSL) && (u =? 117));
      [|exact (Hs3 uni H)].
    destruct (hex4 k1 k2 k3 k4) as [uni2|]; [|discriminate].
    destruct (is_low_surrogate uni2); [|exact (Hs3 uni H)].
    apply push_inv in H as (str' & H & _). apply IH in H; cbn [length] in *; lia.
Qed.

Lemma span_length (p : N -> bool) (s a b : text) :
  span p s = (a, b) -> (length b <= length s)%nat.
Proof.
  revert a b. induction s as [|c s IH]; intros a b; cbn [span].
  - intros [= <- <-]. cbn. lia.
  - destruct (p c).
    + destruct (span p s) as [a' b'] eqn:E. intros [= <- <-].
      specialize (IH _ _ eq_refl). cbn [length]. lia.
    + intros [= <- <-]. lia.
Qed.

Lemma scan_int_part_length (s ip r : text) :
  scan_int_part s = Some (ip, r) -> (length r < length s)%nat.
Proof.
  unfold scan_int_part. destruct s as [|c s']; [discriminate|].
  destruct (c =? 48).
  - intros [= <- <-]. cbn [length]. lia.
  - destruct (is_digit c); [|discriminate].
    destruct (span is_digit s') as [ds r'] eqn:E. intros [= <- <-].
    apply span_length in E. cbn [length]. lia.
Qed.

Lemma scan_frac_length (s fp r : text) :
  scan_frac s = Some (fp, r) -> (length r < length s)%nat.
Proof.
  unfold scan_frac. destruct s as [|c s']; [discriminate|].
  destruct (c =? 46); [|discriminate].
  destruct (span is_digit s') as [ds r'] eqn:E.
  apply span_length in E.
  destruct ds; [discriminate|]. intros [= <- <-]. cbn [length]. lia.
Qed.

Lemma scan_exp_length (s r : text) (ex : Z) :
  scan_exp s = Some (ex, r) -> (length r < length s)%nat.
Proof.
  unfold scan_exp. destruct s as [|c s']; [discriminate|].
  destruct ((c =? 101) || (c =? 69)); [|discriminate].
  set (p := match s' with
            | [] => (false, s')
            | sg :: t =>
              if sg =? 45 then (true, t)
              else if sg =? 43 then (false, t) else (false, s')
            end).
  assert (Hp : (length (snd p) <= length s')%nat).
  { unfold p. destruct s' as [|sg t]; cbn [snd length]; [lia|].
    destruct (sg =? 45); [cbn; lia|]. destruct (sg =? 43); cbn; lia. }
  destruct p as [neg s'']. cbn [snd] in Hp.
  destruct (span is_digit s'') as [ds r'] eqn:E.
  apply span_length in E.
  destruct ds; [discriminate|]. intros [= <- <-]. cbn [length]. lia.
Qed.

Lemma scan_number_length (s r : text) (v : pyval) :
  scan_number s = Some (v, r) -> (length r < length s)%nat.
Proof.
  unfold scan_number.
  set (p := match s with
            | [] => (false, s)
            | c :: s' => if c =? 45 then (true, s') else (false, s)
            end).
  assert (Hp : (length (snd p) <= length s)%nat).
  { unfold p. destruct s as [|c s']; cbn [snd length]; [lia|].
    destruct (c =? 45); cbn; lia. }
  destruct p as [neg s0]. cbn [snd] in Hp.
  destruct (scan_int_part s0) as [[ip s1]|] eqn:Ei; [|discriminate].
  apply scan_int_part_length in Ei.
  destruct (scan_frac s1) as [[fp s2]|] eqn:Ef.
  - apply scan_frac_length in Ef.
    destruct (scan_exp s2) as [[ex s3]|] eqn:Ee.
    + apply scan_exp_length in Ee. intros [= <- <-]. lia.
    + intros [= <- <-]. lia.
  - destruct (scan_exp s1) as [[ex s2]|] eqn:Ee.
    + apply scan_exp_length in Ee. intros [= <- <-]. lia.
    + intros [= <- <-]. lia.
Qed.

Lemma strip_prefix_shorter (p s r : text) :
  p <> [] -> strip_prefix p s = Some r -> (length r < length s)%nat.
Proof.
  intros Hp H. apply strip_prefix_inv in H. subst s. rewrite length_app.
  destruct p; [contradiction|]. cbn [length]. lia.
Qed.

Lemma scan_constant_length (s r : text) (v : pyval) :
  scan_constant s = Some (v, r) -> (length r < length s)%nat.
Proof.
  unfold scan_constant.
  repeat match goal with
  | |- match strip_prefix ?p s with _ => _ end = _ -> _ =>
    let E := fresh "E" in
    destruct (strip_prefix p s) eqn:E;
    [apply strip_prefix_shorter in E; [|discriminate];
     intros [= <- <-]; exact E|]
  | |- match scan_number s with _ => _ end = _ -> _ =>
    let E := fresh "E" in
    destruct (scan_number s) as [[? ?]|] eqn:E;
    [apply scan_number_length in E; intros [= <- <-]; exact E|]
  end.
  discriminate.
Qed.

Lemma scan_once_S (f : nat) (s : text) :
  scan_once (S f) s
  = match s with
    | [] => None
    | c :: s' =>
      if c =? DQ then
        match scanstring s' with
        | Some (str, r) => Some (PyStr str, r)
        | None => None
        end
      else if c =? 123 then
        match skip_ws s' with
        | c1 :: r1 =>
          if c1 =? 125 then Some (PyDict [], r1)
          else parse_members f [] (c1 :: r1)
        | [] => None
        end
      else if c =? 91 then
        match skip_ws s' with
        | c1 :: r1 =>
          if c1 =? 93 then Some (PyList [], r1)
          else parse_elems f [] (c1 :: r1)
        | [] => None
        end
      else scan_constant s
    end.
Proof. reflexivity. Qed.

Lemma parse_members_S (f : nat) (acc : list (pyval * pyval)) (s : text) :
  parse_members (S f) acc s
  = match s with
    | c :: s1 =>
      if c =? DQ then
        match scanstring s1 with
        | None => None
        | Some (key, s2) =>
          match skip_ws s2 with
          | c2 :: s3 =>
            if c2 =? 58 then
              match scan_once f (skip_ws s3) with
              | None => None
              | Some (v, s4) =>
                match skip_ws s4 with
                | c5 :: s5 =>
                  if c5 =? 125 then Some (PyDict (dict_set key v acc), s5)
                  else if c5 =? 44
                  then parse_members f (dict_set key v acc) (skip_ws s5)
                  else None
                | [] => None
                end
              end
            else None
          | [] => None
          end
        end
      else None
    | [] => None
    end.
Proof. reflexivity. Qed.

Lemma parse_elems_S (f : nat) (acc : list pyval) (s : text) :
  parse_elems (S f) acc s
  = match scan_once f s with
    | None => None
    | Some (v, s1) =>
      match skip_ws s1 with
      | c :: s2 =>
        if c =? 93 then Some (PyList (acc ++ [v]), s2)
        else if c =? 44 then parse_elems f (acc ++ [v]) (skip_ws s2)
        else None
      | [] => None
      end
    end.
Proof. reflexivity. Qed.

Lemma scan_fuel (f : nat) :
  fuel_enough (fun f (_ : unit) s => scan_once f s) f /\
  fuel_enough parse_members f /\
  fuel_enough parse_elems f.
Proof.
  induction f as [|f (IHs & IHm & IHe)].
  - split; [|split]; intros a s v r Hrun; discriminate.
  - split; [|split].
    + intros [] s v r H. rewrite scan_once_S in H.
      destruct s as [|c s']; [discriminate|]. cbn [length].
      destruct (c =? DQ) eqn:E1.
      { destruct (scanstring s') as [[str r']|] eqn:Es; [|discriminate].
        inversion H; subst. apply scanstring_length in Es as Hl.
        split; [lia|]. intros [|f'] Hf; [lia|].
        now rewrite scan_once_S, E1, Es. }
      destruct (c =? 123) eqn:E2.
      { pose proof (skip_ws_length s') as Hw.
        destruct (skip_ws s') as [|c1 r1] eqn:Ew; [discriminate|].
        cbn [length] in Hw.
        destruct (c1 =? 125) eqn:E3.
        - inversion H; subst. split; [lia|]. intros [|f'] Hf; [lia|].
          now rewrite scan_once_S, E1, E2, Ew, E3.
        - destruct (IHm _ _ _ _ H) as [Hl Hf']. cbn [length] in *.
          split; [lia|]. intros [|f'] Hf; [lia|].
          rewrite scan_once_S, E1, E2, Ew, E3. apply Hf'. lia. }
      destruct (c =? 91) eqn:E4.
      { pose proof (skip_ws_length s') as Hw.
        destruct (skip_ws s') as [|c1 r1] eqn:Ew; [discriminate|].
        cbn [length] in Hw.
        destruct (c1 =? 93) eqn:E3.
        - inversion H; subst. split; [lia|]. intros [|f'] Hf; [lia|].
          now rewrite scan_once_S, E1, E2, E4, Ew, E3.
        - destruct (IHe _ _ _ _ H) as [Hl Hf']. cbn [length] in *.
          split; [lia|]. intros [|f'] Hf; [lia|].
          rewrite scan_once_S, E1, E2, E4, Ew, E3. apply Hf'. lia. }
      apply scan_constant_length in H as Hl. cbn [length] in Hl.
      split; [lia|]. intros [|f'] Hf; [lia|].
      now rewrite scan_once_S, E1, E2, E4.
    + intros acc s v r H. rewrite parse_members_S in H.
      destruct s as [|c s1]; [discriminate|]. cbn [length].
      destruct (c =? DQ) eqn:E1; [|discriminate].
      destruct (scanstring s1) as [[key s2]|] eqn:Es; [|discriminate].
      apply scanstring_length in Es as Hl1.
      pose proof (skip_ws_length s2) as Hw2.
      destruct (skip_ws s2) as [|c2 s3] eqn:Ew2; [discriminate|].
      cbn [length] in Hw2.
      destruct (c2 =? 58) eqn:E2; [|discriminate].
      pose proof (skip_ws_length s3) as Hw3.
      destruct (scan_once f (skip_ws s3)) as [[v1 s4]|] eqn:Ev; [|discriminate].
      destruct (IHs tt _ _ _ Ev) as [Hl4 Hf4].
      pose proof (skip_ws_length s4) as Hw4.
      destruct (skip_ws s4) as [|c5 s5] eqn:Ew4; [discriminate|].
      cbn [length] in Hw4.
      destruct (c5 =? 125) eqn:E5.
      * inversion H; subst. split; [lia|]. intros [|f'] Hf; [lia|].
        rewrite parse_members_S, E1, Es, Ew2, E2.
        rewrite (Hf4 f') by lia. now rewrite Ew4, E5.
      * destruct (c5 =? 44) eqn:E6; [|discriminate].
        pose proof (skip_ws_length s5) as Hw5.
        destruct (IHm _ _ _ _ H) as [Hl Hf'].
        split; [lia|]. intros [|f'] Hf; [lia|].
        rewrite parse_members_S, E1, Es, Ew2, E2.
        rewrite (Hf4 f') by lia. rewrite Ew4, E5, E6. apply Hf'. lia.
    + intros acc s v r H. rewrite parse_elems_S in H.
      destruct (scan_once f s) as [[v1 s1]|] eqn:Ev; [|discriminate].
      destruct (IHs tt _ _ _ Ev) as [Hl1 Hf1].
      pose proof (skip_ws_length s1) as Hw1.
      destruct (skip_ws s1) as [|c s2] eqn:Ew1; [discriminate|].
      cbn [length] in Hw1.
      destruct (c =? 93) eqn:E1.
      * inversion H; subst. split; [lia|]. intros [|f'] Hf; [lia|].
        rewrite parse_elems_S. rewrite (Hf1 f') by lia.
        now rewrite Ew1, E1.
      * destruct (c =? 44) eqn:E2; [|discriminate].
        pose proof (skip_ws_length s2) as Hw2.
        destruct (IHe _ _ _ _ H) as [Hl Hf'].
        split; [lia|]. intros [|f'] Hf; [lia|].
        rewrite parse_elems_S. rewrite (Hf1 f') by lia.
        rewrite Ew1, E1, E2. apply Hf'. lia.
Qed.

(** [json.loads] gives the value that the scanner reaches with any fuel:
    it never fails for lack of fuel. *)
Theorem json_loads_fuel (f : nat) (s r : text) (v : pyval) :
  match s with 65279 :: _ => False | _ => True end ->
  scan_once f (skip_ws s) = Some (v, r) ->
  skip_ws r = [] ->
  json_loads s = Some v.
Proof.
  intros Hbom H Hr.
  destruct (proj1 (scan_fuel f) tt _ _ _ H) as [Hl Hf].
  pose proof (skip_ws_length s) as Hw.
  assert (E : scan_once (S (length s)) (skip_ws s) = Some (v, r))
    by (apply Hf; lia).
  unfold json_loads.
  destruct s as [|c s']; [now rewrite E, Hr|].
  destruct c as [|p]; [now rewrite E, Hr|].
  do 16 (destruct p as [p|p|]; try (now rewrite E, Hr)).
  all: try contradiction.
Qed.

(* ================================================================== *)
(** ** The result normaliser on frames with rows *)

(** ** Dictionaries built from pairs *)

Lemma dict_set_fresh (k : text) (v : pyval) (d : list (pyval * pyval)) :
  (forall x w, In (x, w) d -> is_key k x = false) ->
  dict_set k v d = d ++ [(PyStr k, v)].
Proof.
  induction d as [|[x w] d IH]; intros H; simpl; [reflexivity|].
  rewrite (H x w) by now left. rewrite IH; [reflexivity|].
  intros y u Hin. apply (H y u). now right.
Qed.

Lemma is_key_str (k c : text) : is_key k (PyStr c) = text_eqb c k.
Proof. reflexivity. Qed.

Lemma text_eqb_neq (a b : text) : a <> b -> text_eqb a b = false.
Proof.
  intros H. destruct (text_eqb a b) eqn:E; [|reflexivity].
  now apply text_eqb_eq in E.
Qed.

(** Distinct keys are laid down in their order, one entry each. *)
Lemma dict_of_acc_nodup (kvs : list (text * pyval)) (d : list (text * pyval)) :
  NoDup (map fst (d ++ kvs)) ->
  fold_left (fun d kv => dict_set (fst kv) (snd kv) d) kvs
    (map (fun kv => (PyStr (fst kv), snd kv)) d)
  = map (fun kv => (PyStr (fst kv), snd kv)) (d ++ kvs).
Proof.
  revert d. induction kvs as [|[k v] kvs IH]; intros d Hnd; simpl.
  - now rewrite app_nil_r.
  - rewrite dict_set_fresh.
    + replace (map (fun kv => (PyStr (fst kv), snd kv)) d ++ [(PyStr k, v)])
        with (map (fun kv : text * pyval => (PyStr (fst kv), snd kv))
                (d ++ [(k, v)]))
        by (rewrite map_app; reflexivity).
      rewrite IH; rewrite <- app_assoc; [reflexivity|exact Hnd].
    + intros x w Hin. apply in_map_iff in Hin as [[k' v'] [Heq Hin]].
      simpl in Heq. inversion Heq as [[Hx Hw]]. clear Heq.
      rewrite is_key_str. apply text_eqb_neq.
      intros ->. rewrite map_app in Hnd. apply NoDup_remove_2 in Hnd.
      apply Hnd. apply in_or_app. left.
      apply in_map_iff. exists (k, v'). now split.
Qed.

Lemma dict_of_nodup (kvs : list (text * pyval)) :
  NoDup (map fst kvs) ->
  dict_of kvs = map (fun kv => (PyStr (fst kv), snd kv)) kvs.
Proof. intros H. apply (dict_of_acc_nodup kvs []). exact H. Qed.

(** Keys come from the pairs, whatever the repetitions. *)
Lemma dict_of_acc_keys (kvs : list (text * pyval)) (d : list (pyval * pyval))
    (P : text -> Prop) :
  (forall k v, In (k, v) kvs -> P k) ->
  (forall x w, In (x, w) d -> exists c, x = PyStr c /\ P c) ->
  forall x w,
    In (x, w) (fold_left (fun d kv => dict_set (fst kv) (snd kv) d) kvs d) ->
    exists c, x = PyStr c /\ P c.
Proof.
  revert d. induction kvs as [|[k v] kvs IH]; intros d Hk Hd; simpl; [exact Hd|].
  apply IH.
  - intros k' v' Hin. apply (Hk k' v'). now right.
  - intros x w Hin. apply dict_set_entries in Hin as [Hin|[-> _]].
    + exact (Hd x w Hin).
    + exists k. split; [reflexivity|]. apply (Hk k v). now left.
Qed.

Lemma in_combine_fst {A B : Type} (l : list A) (l' : list B) (a : A) (b : B) :
  In (a, b) (combine l l') -> In a l.
Proof. apply in_combine_l. Qed.

Lemma map_fst_combine_nodup {A B : Type} (l : list A) (l' : list B) :
  NoDup l -> NoDup (map fst (combine l l')).
Proof.
  revert l'. induction l as [|a l IH]; intros l' H; simpl; [constructor|].
  destruct l' as [|b l']; simpl; [constructor|].
  inversion H; subst. constructor; [|now apply IH].
  intros Hin. apply in_map_iff in Hin as [[a' b'] [Heq Hin]].
  simpl in Heq. subst a'. apply in_combine_l in Hin. contradiction.
Qed.

(** ** The result normaliser: rows *)

(** The dictionary of a row: the column names paired with the values. *)
Lemma record_in_column_order (cols : list text) (row : list pyval) :
  NoDup cols ->
  mk_dict (combine cols row)
  = PyDict (map (fun kv => (PyStr (fst kv), snd kv)) (combine cols row)).
Proof.
  intros H. unfold mk_dict. f_equal. apply dict_of_nodup.
  now apply map_fst_combine_nodup.
Qed.

Lemma record_keys (cols : list text) (row : list pyval) (x w : pyval) :
  In (x, w) (dict_of (combine cols row)) -> exists c, x = PyStr c /\ In c cols.
Proof.
  apply (dict_of_acc_keys (combine cols row) [] (fun c => In c cols)).
  - intros k v Hin. now apply in_combine_l in Hin.
  - intros ? ? [].
Qed.

(** When the store returns rows, every row becomes one dictionary, in the
    order of the rows; [row_count] is the number of rows; with distinct
    column names a dictionary lists the columns in their order, each with
    the value at its place in the row. *)
Theorem rows_pass_through
    (read_sql_query : pyval -> outcome dataframe) (sql_query sl : pyval)
    (cols : list text) (rows : list (list pyval)) (log : list event) :
  slice100 sql_query = Return sl ->
  read_sql_query sql_query = Return (DataFrame cols rows) ->
  rows <> [] ->
  execute_sql_query read_sql_query sql_query log
  = (Return
       [(PyStr (txt "success"), PyBool true);
        (PyStr (txt "error"), PyNone);
        (PyStr (txt "data"),
         PyList (map (fun row => mk_dict (combine cols row)) rows));
        (PyStr (txt "row_count"), PyInt (Z.of_nat (length rows)));
        (PyStr (txt "columns"), PyList (map PyStr cols))],
     log ++ [StoreQuery sql_query])
  /\ (NoDup cols ->
      forall row,
        mk_dict (combine cols row)
        = PyDict (map (fun kv => (PyStr (fst kv), snd kv)) (combine cols row))).
Proof.
  intros Hsl Hdf Hrows.
  pose proof (execute_sql_query_cases read_sql_query sql_query log) as H.
  rewrite Hsl, Hdf in H. split.
  - rewrite H. unfold df_empty. cbn [df_rows df_columns].
    destruct rows as [|r rows]; [contradiction|]. cbn [nonempty negb orb].
    unfold success_dict, to_dict_records. cbn [df_rows df_columns].
    assert (E : negb (nonempty cols) && (0 <? length cols)%nat = false)
      by (destruct cols; reflexivity).
    rewrite E, length_map. reflexivity.
  - intros Hnd row. now apply record_in_column_order.
Qed.

Lemma rows_pass_through_witness :
  execute_sql_query
    (fun _ => Return (DataFrame [txt "id"] [[PyInt 1]; [PyInt 2]]))
    (PyStr (txt "SELECT id FROM t")) []
  = (Return
       [(PyStr (txt "success"), PyBool true);
        (PyStr (txt "error"), PyNone);
        (PyStr (txt "data"),
         PyList (map (fun row => mk_dict (combine [txt "id"] row))
                   [[PyInt 1]; [PyInt 2]]));
        (PyStr (txt "row_count"),
         PyInt (Z.of_nat (length [[PyInt 1]; [PyInt 2]])));
        (PyStr (txt "columns"), PyList (map PyStr [txt "id"]))],
     [] ++ [StoreQuery (PyStr (txt "SELECT id FROM t"))])
  /\ (NoDup [txt "id"] ->
      forall row,
        mk_dict (combine [txt "id"] row)
        = PyDict (map (fun kv => (PyStr (fst kv), snd kv))
                    (combine [txt "id"] row))).
Proof.
  apply (rows_pass_through _ _ (PyStr (txt "SELECT id FROM t"))).
  - reflexivity.
  - reflexivity.
  - discriminate.
Defined.

(** What a successful result always satisfies, whatever the frame: [data]
    is empty only for a frame without rows and without columns, so a result
    with columns always has a row to show them; the entries of [data] are
    dictionaries whose keys are column names; and [row_count] is the length
    of [data]. *)
Theorem result_shows_columns
    (read_sql_query : pyval -> outcome dataframe) (sql_query : pyval)
    (log log' : list event) (d : list (pyval * pyval)) :
  execute_sql_query read_sql_query sql_query log = (Return d, log') ->
  dict_get (txt "success") d = Some (PyBool true) ->
  exists df data,
    read_sql_query sql_query = Return df /\
    d = success_dict data (df_columns df) /\
    dict_get (txt "row_count") d = Some (PyInt (Z.of_nat (length data))) /\
    (data = [] <-> df_rows df = [] /\ df_columns df = []) /\
    (df_rows df <> [] -> length data = length (df_rows df)) /\
    (df_rows df = [] -> df_columns df <> [] -> length data = 1%nat) /\
    (forall e, In e data ->
       exists r, e = PyDict r /\
         forall x w, In (x, w) r -> exists c, x = PyStr c /\ In c (df_columns df)).
Proof.
  intros H Hok.
  pose proof (execute_sql_query_cases read_sql_query sql_query log) as Hc.
  destruct (slice100 sql_query) as [sl|msg].
  2:{ rewrite Hc in H. inversion H; subst. discriminate. }
  destruct (read_sql_query sql_query) as [df|msg].
  2:{ rewrite Hc in H. inversion H; subst. discriminate. }
  rewrite Hc in H. inversion H; subst. clear H Hc Hok.
  destruct df as [cols rows]. unfold df_empty. cbn [df_rows df_columns].
  eexists. eexists. split; [reflexivity|]. split; [reflexivity|].
  split; [reflexivity|].
  destruct rows as [|r rows]; [destruct cols as [|c cols]|].
  - change (negb (nonempty (@nil (list pyval))) || negb (nonempty (@nil text)))
      with true.
    cbn [andb length Nat.ltb Nat.leb]. unfold to_dict_records.
    cbn [df_rows map].
    split; [split; auto|]. split; [contradiction|].
    split; [contradiction|]. intros e [].
  - change (negb (nonempty (@nil (list pyval))) || negb (nonempty (c :: cols)))
      with true.
    cbn [andb length Nat.ltb Nat.leb].
    split; [split; [discriminate|intros [_ H]; discriminate]|].
    split; [contradiction|]. split; [reflexivity|].
    intros e [<-|[]]. eexists. split; [reflexivity|].
    intros x w Hin. apply null_row_entries in Hin as [_ Hin]. exact Hin.
  - change (negb (nonempty (r :: rows)) || negb (nonempty cols))
      with (negb (nonempty cols)).
    assert (E : negb (nonempty cols) && (0 <? length cols)%nat = false)
      by (destruct cols; reflexivity).
    rewrite E. unfold to_dict_records. cbn [df_rows df_columns].
    split; [split; [discriminate|intros [H _]; discriminate]|].
    split; [intros _; apply length_map|]. split; [discriminate|].
    intros e Hin. apply in_map_iff in Hin as [row [<- _]].
    eexists. split; [reflexivity|]. intros x w. apply record_keys.
Qed.

Lemma result_shows_columns_witness :
  exists df data,
    (fun _ : pyval => Return (DataFrame [txt "x"] [])) (PyStr (txt "SELECT x"))
    = Return df /\
    [(PyStr (txt "success"), PyBool true); (PyStr (txt "error"), PyNone);
     (PyStr (txt "data"), PyList [PyDict [(PyStr (txt "x"), PyNone)]]);
     (PyStr (txt "row_count"), PyInt 1);
     (PyStr (txt "columns"), PyList [PyStr (txt "x")])]
    = success_dict data (df_columns df) /\
    dict_get (txt "row_count")
      [(PyStr (txt "success"), PyBool true); (PyStr (txt "error"), PyNone);
       (PyStr (txt "data"), PyList [PyDict [(PyStr (txt "x"), PyNone)]]);
       (PyStr (txt "row_count"), PyInt 1);
       (PyStr (txt "columns"), PyList [PyStr (txt "x")])]
    = Some (PyInt (Z.of_nat (length data))) /\
    (data = [] <-> df_rows df = [] /\ df_columns df = []) /\
    (df_rows df <> [] -> length data = length (df_rows df)) /\
    (df_rows df = [] -> df_columns df <> [] -> length data = 1%nat) /\
    (forall e, In e data ->
       exists r, e = PyDict r /\
         forall x w, In (x, w) r -> exists c, x = PyStr c /\ In c (df_columns df)).
Proof.
  apply (result_shows_columns
           (fun _ => Return (DataFrame [txt "x"] [])) (PyStr (txt "SELECT x"))
           [] [StoreQuery (PyStr (txt "SELECT x"))]).
  - reflexivity.
  - reflexivity.
Defined.

(* ================================================================== *)
(** ** The handler: status codes and the way to the store *)

(** The handler always answers, and the status code of the answer agrees
    with its body; so do the 404 and 405 handlers. *)
Theorem status_matches_success :
  (forall literal_eval read_sql_query timestamp raw_data log,
     exists resp log',
       query_sql literal_eval read_sql_query timestamp raw_data log
       = (Return resp, log') /\
       status_agrees resp = true /\
       (status resp = 200 \/ status resp = 400 \/ status resp = 500)) /\
  status_agrees not_found = true /\
  status_agrees method_not_allowed = true.
Proof.
  split; [|split; reflexivity].
  intros le store ts raw log. rewrite query_sql_cases.
  destruct (fix_json_format le raw) as [data|e];
    [|eexists; eexists; split; [reflexivity|split; [reflexivity|auto]]].
  destruct (truthy data); cbn [negb];
    [|eexists; eexists; split; [reflexivity|split; [reflexivity|auto]]].
  destruct (py_get data (txt "sql")) as [q|e];
    [|eexists; eexists; split; [reflexivity|split; [reflexivity|auto]]].
  destruct (truthy q); cbn [negb];
    [|eexists; eexists; split; [reflexivity|split; [reflexivity|auto]]].
  destruct (slice100 q);
    [|eexists; eexists; split; [reflexivity|split; [reflexivity|auto]]].
  destruct (store q);
    eexists; eexists; (split; [reflexivity|split; [reflexivity|auto]]).
Qed.







(* ================================================================== *)
(** ** The decoder: the field pattern and the two escapings *)

(** ** The pattern of methods 2 and 4, as a user sees it *)

(** The pattern matches at the head of a text exactly when the text starts
    with the key, white space, and a quoted run of characters without
    quote; the match ends at the first quote behind the opening one, and
    the captured span is that run.  So the span never holds a quote,
    escaped or not. *)
Theorem sql_match_ends_at_first_quote (s rest : text) (cs : caps) :
  match_at sql_pattern s = Some (cs, rest) <->
  exists ws c,
    s = (sql_key ++ ws ++ quoted c) ++ rest /\
    forallb is_space ws = true /\
    forallb not_quote c = true /\
    cs = [(0%nat, sql_key ++ ws ++ quoted c); (1%nat, c)].
Proof.
  rewrite match_at_sql_pattern. split.
  - destruct (sql_field_at s) as [[[ws c] r]|] eqn:E; [|discriminate].
    intros [= <- <-]. apply sql_field_at_inv in E as (Hs & Hws & Hc).
    exists ws, c. auto.
  - intros (ws & c & -> & Hws & Hc & ->).
    now rewrite sql_field_at_complete.
Qed.

Lemma search_from_complete (r : regex) (pre s before : text) :
  match_at r s <> None -> search_from r before (pre ++ s) <> None.
Proof.
  revert before. induction pre as [|c pre IH]; intros before H.
  - cbn [app]. rewrite search_from_unfold.
    destruct (match_at r s) as [[cs rest]|]; [discriminate|contradiction].
  - cbn [app]. rewrite search_from_unfold.
    destruct (match_at r (c :: pre ++ s)) as [[cs rest]|]; [discriminate|].
    now apply IH.
Qed.

(** A text that holds a field of that shape anywhere always decodes,
    whatever surrounds the field: when the three parsing methods fail,
    method 4 returns the mapping with the one key [sql], whose value is the
    first captured span with its escaped newlines made literal. *)
Theorem sql_field_always_decodes (literal_eval : text -> option pyval)
    (pre ws c post : text) :
  forallb is_space ws = true ->
  forallb not_quote c = true ->
  let raw_data := pre ++ (sql_key ++ ws ++ quoted c) ++ post in
  exists m v,
    re_search sql_pattern raw_data = Some m /\
    forallb not_quote (group 1 m) = true /\
    fix_json_format literal_eval raw_data = Return v /\
    (method1 raw_data = None -> method2 raw_data = None ->
     method3 raw_data = None ->
     v = PyDict [(PyStr (txt "sql"), PyStr (unescape_newlines (group 1 m)))]).
Proof.
  intros Hws Hc raw_data.
  assert (Hs : re_search sql_pattern raw_data <> None).
  { apply search_from_complete. rewrite match_at_sql_pattern.
    now rewrite sql_field_at_complete. }
  destruct (re_search sql_pattern raw_data) as [m|] eqn:Em; [|contradiction].
  destruct (re_search_sql_pattern raw_data m Em) as (ws' & _ & Hg1 & _).
  assert (H4 : method4 raw_data
               = Some (PyDict [(PyStr (txt "sql"),
                                PyStr (unescape_newlines (group 1 m)))])).
  { unfold method4. now rewrite Em. }
  exists m. unfold fix_json_format.
  destruct (method1 raw_data) as [v1|];
    [exists v1; repeat split; auto; discriminate|].
  destruct (method2 raw_data) as [v2|];
    [exists v2; repeat split; auto; discriminate|].
  destruct (method3 raw_data) as [v3|];
    [exists v3; repeat split; auto; discriminate|].
  rewrite H4. eexists. repeat split; auto.
Qed.

Lemma sql_field_always_decodes_witness :
  let raw_data :=
    txt "garbage " ++ (sql_key ++ txt "  " ++ quoted (txt "SELECT 1"))
    ++ txt " more" in
  exists m v,
    re_search sql_pattern raw_data = Some m /\
    forallb not_quote (group 1 m) = true /\
    fix_json_format literal_eval_sample raw_data = Return v /\
    (method1 raw_data = None -> method2 raw_data = None ->
     method3 raw_data = None ->
     v = PyDict [(PyStr (txt "sql"), PyStr (unescape_newlines (group 1 m)))]).
Proof.
  apply (sql_field_always_decodes literal_eval_sample
           (txt "garbage ") (txt "  ") (txt "SELECT 1") (txt " more"));
    reflexivity.
Defined.

(** ** Escaping and its inverse *)

Lemma str_replace_unfold_cons (old new s : text) (c : N) :
  old <> [] ->
  str_replace (c :: s) old new
  = if starts_with old (c :: s)
    then new ++ replace_scan old new (length old - 1) s
    else c :: str_replace s old new.
Proof.
  intros H. unfold str_replace. destruct old; [contradiction|]. reflexivity.
Qed.

Lemma replace_scan_nil (old new : text) (n : nat) :
  replace_scan old new n [] = [].
Proof. reflexivity. Qed.






(* ================================================================== *)
(** ** The store and the health check *)



(** The health check answers 200 exactly when the connection and the count
    succeed, and then reports the count; otherwise it answers 500, and a
    failed connection shows with the prefix of [get_db_connection].  Its
    bodies have no [success] field: they are not response envelopes. *)
Theorem health_check_cases (connect : outcome unit)
    (count_records : outcome pyval) (timestamp : text) :
  let resp := health_check connect count_records timestamp in
  (status resp = 200 <->
   exists conn count, connect = Return conn /\ count_records = Return count) /\
  (status resp = 200 \/ status resp = 500) /\
  (forall count,
     connect = Return tt -> count_records = Return count ->
     exists b, body resp = PyDict b /\
               dict_get (txt "total_records") b = Some count) /\
  (exists b, body resp = PyDict b /\ dict_get (txt "success") b = None) /\
  (forall e, connect = Raise e ->
     exists b, body resp = PyDict b /\
               dict_get (txt "error") b
               = Some (PyStr (txt "数据库连接失败: " ++ e))).
Proof.
  unfold health_check, get_db_connection.
  destruct connect as [[]|e]; [destruct count_records as [count|e]|];
    cbn [status body jsonify]; (split; [split|]).
  all: try (intros H; discriminate H).
  all: try (intros (c & n & H1 & H2); discriminate).
  all: try (intros _; eauto).
  all: split; [auto|]; split;
    [intros n H1 H2; try discriminate; inversion H2; subst;
     eexists; split; reflexivity|].
  all: split; [eexists; split; reflexivity|].
  all: intros e' H; try discriminate; inversion H; subst;
    eexists; split; reflexivity.
Qed.

(* ================================================================== *)
(** ** The import script *)

Lemma read_all_spec (read_csv : text -> outcome dataframe)
    (csv_files : list text) (acc : list dataframe) (tr : list io_event) :
  read_all read_csv csv_files acc tr
  = (Return (acc ++ readable read_csv csv_files),
     tr ++ map EvReadCsv csv_files).
Proof.
  revert acc tr. induction csv_files as [|f rest IH]; intros acc tr.
  - cbn. now rewrite !app_nil_r.
  - cbn [read_all readable map].
    unfold io_bind at 1, io_try, io_bind, io_call, io_ret.
    destruct (read_csv f) as [df|e]; rewrite IH.
    + now rewrite <- !app_assoc.
    + now rewrite <- !app_assoc.
Qed.

Lemma import_csv_to_db_spec (read_csv : text -> outcome dataframe)
    (pd_concat : list dataframe -> outcome dataframe)
    (to_sql : dataframe -> outcome unit) (csv_files : list text)
    (tr : list io_event) :
  import_csv_to_db read_csv pd_concat to_sql csv_files tr
  = (Return (fst (import_outcome read_csv pd_concat to_sql csv_files)),
     tr ++ snd (import_outcome read_csv pd_concat to_sql csv_files)).
Proof.
  unfold import_csv_to_db, import_outcome, io_bind at 1.
  rewrite read_all_spec. cbn [app].
  destruct (readable read_csv csv_files) as [|df good]; [reflexivity|].
  cbn [nonempty negb]. unfold io_try, io_bind, io_call, io_ret.
  destruct (pd_concat (df :: good)) as [combined|e]; cbn [fst snd].
  - destruct (to_sql combined); now rewrite <- !app_assoc.
  - now rewrite <- app_assoc.
Qed.

(** The import reads every file once, in order; a file that cannot be read
    is passed over and does not stop the import.  The function never
    raises.  It returns true exactly when some file was read and the merge
    of the frames read and the writing of the table both succeed; the
    table is written only with that merge; when no file was read nothing
    is merged or written. *)
Theorem import_skips_unreadable (read_csv : text -> outcome dataframe)
    (pd_concat : list dataframe -> outcome dataframe)
    (to_sql : dataframe -> outcome unit) (csv_files : list text)
    (tr : list io_event) :
  let good := readable read_csv csv_files in
  exists b evs,
    import_csv_to_db read_csv pd_concat to_sql csv_files tr
    = (Return b, tr ++ map EvReadCsv csv_files ++ evs) /\
    (b = true <->
     good <> [] /\
     exists combined,
       pd_concat good = Return combined /\ to_sql combined = Return tt) /\
    (forall df, In (EvToSql df) evs ->
                good <> [] /\ pd_concat good = Return df) /\
    (good = [] -> evs = []).
Proof.
  intros good. rewrite import_csv_to_db_spec. unfold import_outcome.
  fold good. destruct good as [|df0 good'] eqn:Eg.
  - exists false, []. cbn [fst snd]. rewrite app_nil_r.
    split; [reflexivity|]. split; [|split; auto].
    + split; [discriminate|]. intros [H _]. contradiction.
    + intros df [].
  - destruct (pd_concat (df0 :: good')) as [combined|e] eqn:Ec; cbn [fst snd].
    + exists (match to_sql combined with Return _ => true | Raise _ => false end),
        [EvConcat (df0 :: good'); EvToSql combined].
      split; [reflexivity|]. split; [|split].
      * destruct (to_sql combined) as [[]|e] eqn:Et; split; try discriminate.
        -- intros _. split; [discriminate|]. now exists combined.
        -- reflexivity.
        -- intros (_ & c & Hc & Ht). inversion Hc; subst c. congruence.
      * intros df [H|[H|[]]]; [discriminate|]. inversion H; subst.
        split; [discriminate|reflexivity].
      * discriminate.
    + exists false, [EvConcat (df0 :: good')].
      split; [reflexivity|]. split; [|split].
      * split; [discriminate|]. intros (_ & c & Hc & _). discriminate.
      * intros df [H|[]]. discriminate.
      * discriminate.
Qed.

Ltac verify_leaf b k :=
  exists b, k; split;
  [ intros tr;
    unfold verify_database, io_try, io_bind, io_call, io_lift, io_ret;
    repeat (match goal with H : _ = _ |- _ => rewrite H end; cbv iota beta);
    rewrite <- ?app_assoc; reflexivity
  | split; [lia | try discriminate] ].

(** The verification never raises; it runs its five statements in order
    and stops at the first that fails, or whose rows have not the shape it
    reads; whether it passes does not depend on what ran before. *)
Lemma verify_database_spec (execute : text -> outcome (list (list pyval))) :
  exists b n,
    (forall tr,
       verify_database execute tr
       = (Return b, tr ++ firstn n verify_events)) /\
    (1 <= n <= 5)%nat /\
    (b = true ->
     n = 5%nat /\
     forall q, In (EvExecute q) verify_events ->
               exists rows, execute q = Return rows).
Proof.
  destruct (execute sql_tables) as [tables|e] eqn:E1; [|verify_leaf false 1%nat].
  destruct (column_items tables 0) eqn:I1; [|verify_leaf false 1%nat].
  destruct (execute sql_count) as [counts|e] eqn:E2; [|verify_leaf false 2%nat].
  destruct (fetchone_item counts 0) eqn:I2; [|verify_leaf false 2%nat].
  destruct (execute sql_table_info) as [columns|e] eqn:E3;
    [|verify_leaf false 3%nat].
  destruct (column_lines (firstn 10 columns)) eqn:I3;
    [|verify_leaf false 3%nat].
  destruct (execute sql_date_range) as [dates|e] eqn:E4;
    [|verify_leaf false 4%nat].
  destruct (fetchone_item dates 0) as [lo|e] eqn:I4; [|verify_leaf false 4%nat].
  destruct (truthy lo) eqn:Et;
    [destruct (fetchone_item dates 1) as [hi|e] eqn:I5;
     [|verify_leaf false 4%nat]|].
  all: destruct (execute sql_zones) as [zones|e] eqn:E5;
    [|verify_leaf false 5%nat].
  all: destruct (column_items zones 0) eqn:I6; [|verify_leaf false 5%nat].
  all: verify_leaf true 5%nat.
  all: intros _; split; [reflexivity|].
  all: intros q [Hq|[Hq|[Hq|[Hq|[Hq|[]]]]]]; inversion Hq; subst q;
    [exists tables; exact E1 | exists counts; exact E2
    | exists columns; exact E3 | exists dates; exact E4
    | exists zones; exact E5].
Qed.

Section MainRuns.

Variable db_exists : bool.
Variable os_remove : outcome unit.
Variable connect : outcome unit.
Variable glob_csv : list text.
Variable read_csv : text -> outcome dataframe.
Variable pd_concat : list dataframe -> outcome dataframe.
Variable to_sql : dataframe -> outcome unit.
Variable execute : text -> outcome (list (list pyval)).
Variable commit : outcome unit.
Variable close : outcome unit.

(** Every path through [main]. *)
Lemma main_spec (tr : list io_event) :
  main db_exists os_remove connect glob_csv read_csv pd_concat to_sql
    execute commit close tr
  = match (if db_exists then os_remove else Return tt) with
    | Raise _ => (Return false, tr ++ [EvRemove])
    | Return _ =>
      match connect with
      | Raise _ =>
        (Return false,
         tr ++ (if db_exists then [EvRemove] else []) ++ [EvConnect])
      | Return _ =>
        match glob_csv with
        | [] => (Return false, tr ++ setup_events db_exists)
        | _ :: _ =>
          let io := import_outcome read_csv pd_concat to_sql glob_csv in
          if fst io then
            match verify_database execute
                    (tr ++ setup_events db_exists ++ snd io) with
            | (Return true, tr5) =>
              match commit with
              | Raise _ => (Return false, tr5 ++ [EvCommit])
              | Return _ =>
                match close with
                | Raise _ => (Return false, tr5 ++ [EvCommit; EvClose])
                | Return _ => (Return true, tr5 ++ [EvCommit; EvClose])
                end
              end
            | (Return false, tr5) => (Return false, tr5)
            | (Raise _, tr5) => (Return false, tr5)
            end
          else (Return false, tr ++ setup_events db_exists ++ snd io)
        end
      end
    end.
Proof.
  unfold main, create_database, get_csv_files, setup_events.
  unfold io_try, io_bind at 1 2 3.
  assert (Hc' :
            (if db_exists then io_call EvRemove os_remove else io_ret tt) tr
            = (if db_exists then os_remove else Return tt,
               tr ++ (if db_exists then [EvRemove] else []))).
  { destruct db_exists; unfold io_call, io_ret; [reflexivity|].
    now rewrite app_nil_r. }
  rewrite Hc'. clear Hc'.
  destruct (if db_exists then os_remove else Return tt) as [u|e] eqn:Er.
  2:{ destruct db_exists; [reflexivity|discriminate]. }
  unfold io_call at 1.
  destruct connect as [c|e]; [|now rewrite <- app_assoc].
  unfold io_call at 1.
  destruct glob_csv as [|f files] eqn:Eg.
  { cbn [nonempty negb]. unfold io_ret. now rewrite <- !app_assoc. }
  cbn [nonempty negb]. unfold io_bind at 1.
  rewrite import_csv_to_db_spec.
  set (io := import_outcome read_csv pd_concat to_sql (f :: files)).
  cbv zeta.
  replace (((tr ++ (if db_exists then [EvRemove] else [])) ++ [EvConnect])
           ++ [EvGlob])
    with (tr ++ (if db_exists then [EvRemove] else []) ++ [EvConnect; EvGlob])
    by (now rewrite <- !app_assoc).
  rewrite <- (app_assoc tr).
  destruct (fst io); cbn [negb]; [|reflexivity].
  unfold io_bind at 1.
  destruct (verify_database execute
              (tr ++ ((if db_exists then [EvRemove] else [])
                      ++ [EvConnect; EvGlob]) ++ snd io))
    as [[[|]|e] tr5]; cbn [negb]; try reflexivity.
  unfold io_bind, io_call, io_ret.
  destruct commit as [u1|e]; [|reflexivity].
  destruct close as [u2|e]; now rewrite <- app_assoc.
Qed.

(** Without any CSV file the script fails, but only after it has removed
    the database that was there and opened a new one; the connection is
    neither committed nor closed. *)
Theorem main_no_csv :
  glob_csv = [] ->
  (db_exists = true -> os_remove = Return tt) ->
  connect = Return tt ->
  main db_exists os_remove connect glob_csv read_csv pd_concat to_sql
    execute commit close []
  = (Return false, (if db_exists then [EvRemove] else []) ++ [EvConnect; EvGlob]).
Proof.
  intros Hg Hr Hc. rewrite main_spec, Hg, Hc.
  destruct db_exists; [rewrite (Hr eq_refl)|]; reflexivity.
Qed.





(** The script returns true exactly when every step succeeds: the removal
    of an existing database, the connection, a folder with at least one
    file, the import, the verification, the commit and the closing.  The
    events of such a run are the setup, the import, the five statements,
    the commit and the closing, in that order. *)
Theorem main_success (tr' : list io_event) :
  main db_exists os_remove connect glob_csv read_csv pd_concat to_sql
    execute commit close [] = (Return true, tr') <->
  (db_exists = true -> exists u, os_remove = Return u) /\
  (exists u, connect = Return u) /\
  glob_csv <> [] /\
  fst (import_outcome read_csv pd_concat to_sql glob_csv) = true /\
  verify_database execute [] = (Return true, verify_events) /\
  (exists u, commit = Return u) /\
  (exists u, close = Return u) /\
  tr' = setup_events db_exists
        ++ snd (import_outcome read_csv pd_concat to_sql glob_csv)
        ++ verify_events ++ [EvCommit; EvClose].
Proof.
  rewrite main_spec. cbn [app].
  set (io := import_outcome read_csv pd_concat to_sql glob_csv).
  destruct (verify_database_spec execute) as (b & n & Hv & Hn & Hb).
  rewrite !Hv. cbn [app].
  split.
  - destruct db_exists eqn:Edb.
    + destruct os_remove as [u|e]; [|discriminate].
      destruct connect as [c|e]; [|discriminate].
      destruct glob_csv as [|f files] eqn:Eg; [discriminate|].
      cbv zeta. fold io. destruct (fst io); [|discriminate].
      destruct b; [|discriminate]. destruct (Hb eq_refl) as [-> _].
      destruct commit as [u1|e]; [|discriminate].
      destruct close as [u2|e]; [|discriminate].
      intros [= <-]. repeat split; eauto; try discriminate.
      now rewrite <- !app_assoc.
    + destruct connect as [c|e]; [|discriminate].
      destruct glob_csv as [|f files] eqn:Eg; [discriminate|].
      cbv zeta. fold io. destruct (fst io); [|discriminate].
      destruct b; [|discriminate]. destruct (Hb eq_refl) as [-> _].
      destruct commit as [u1|e]; [|discriminate].
      destruct close as [u2|e]; [|discriminate].
      intros [= <-]. repeat split; eauto; try discriminate.
      now rewrite <- !app_assoc.
  - intros (Hr & [c ->] & Hg & Hio & Hver & [u1 ->] & [u2 ->] & ->).
    inversion Hver as [[Hb' Hn']]. subst b.
    destruct (Hb eq_refl) as [-> _].
    assert (Hrm : (if db_exists then os_remove else Return tt)
                  = Return (if db_exists
                            then match os_remove with
                                 | Return u => u
                                 | Raise _ => tt
                                 end
                            else tt)).
    { destruct db_exists; [|reflexivity].
      destruct (Hr eq_refl) as [u ->]. reflexivity. }
    rewrite Hrm.
    destruct glob_csv as [|f files] eqn:Eg; [contradiction|].
    cbv zeta. fold io. rewrite Hio.
    now rewrite <- !app_assoc.
Qed.

End MainRuns.

Lemma main_no_csv_witness :
  sample_main [] = (Return false, [EvRemove] ++ [EvConnect; EvGlob]).
Proof.
  apply (main_no_csv true (Return tt) (Return tt) []); auto.
Defined.


(* ================================================================== *)
(** ** The decoder on flat objects: method 3 and the methods together *)

Lemma rmatch_set (p : N -> bool) (s : text) (cs : caps)
    (k : text -> caps -> option (caps * text)) :
  rmatch (RSet p) s cs k
  = match s with
    | x :: s' => if p x then k s' cs else None
    | [] => None
    end.
Proof. reflexivity. Qed.

Lemma not_quote_tail (x : N) (t : text) :
  forallb not_quote (x :: t) = true -> forallb not_quote t = true.
Proof. intros H. simpl in H. now apply andb_true_iff in H as [_ H]. Qed.

(** The quoted run that ends a pattern: characters without quote, a dead
    alternative [alt] that cannot start at a quote, and the closing quote.
    The match ends at the first quote. *)
Lemma quoted_run_match (i : nat) (alt : regex) (s : text) (cs : caps) :
  (forall t cs' k', rmatch alt (DQ :: t) cs' k' = None) ->
  rmatch (RGroup i (RStar (RSet not_quote) +++ RStar alt) +++ RLit DQ)%re
    s cs (fun s' cs' => Some (cs', s'))
  = match span not_quote s with
    | (c, _ :: rest) => Some ((i, c) :: cs, rest)
    | (_, []) => None
    end.
Proof.
  intros Halt.
  rewrite rmatch_cat, rmatch_group, rmatch_cat.
  destruct (span_spec not_quote s) as (Hs & Hc & Hr).
  destruct (span not_quote s) as [c r] eqn:Hspan. cbn [fst snd] in *.
  destruct r as [|x rest].
  - rewrite app_nil_r in Hs. subst c.
    rewrite (rmatch_fail _ not_quote_tail); auto.
    intros s' cs' Hs'. apply (rmatch_fail _ not_quote_tail); auto.
    intros t cs'' Ht. rewrite rmatch_lit. destruct t as [|y t]; [reflexivity|].
    simpl in Ht. apply andb_true_iff in Ht as [Hy _].
    unfold not_quote in Hy. destruct (y =? DQ); [discriminate|reflexivity].
  - apply not_quote_false in Hr. subst x.
    erewrite star_set_first.
    2:{ rewrite Hspan. cbn [snd]. rewrite rmatch_star_stop.
        - rewrite rmatch_lit, N.eqb_refl. reflexivity.
        - intros k'. apply Halt. }
    subst s. now rewrite consumed_app.
Qed.

(** The pattern of method 3 at the head of a text.  Its value never holds
    a quote either, so the alternative that allows a newline and more is
    never taken; the key is not empty. *)
Lemma match_at_pair_pattern (s : text) :
  match_at pair_pattern s =
  match pair_field_at s with
  | Some (k, ws, v, rest) =>
    Some ([(0%nat, pair_text k ws v); (2%nat, v); (1%nat, k)], rest)
  | None => None
  end.
Proof.
  unfold match_at, pair_pattern, pair_field_at.
  rewrite rmatch_cat, rmatch_lit.
  destruct s as [|q0 s1]; [reflexivity|].
  destruct (N.eqb_spec q0 DQ) as [->|]; [|reflexivity].
  rewrite rmatch_cat, rmatch_group. unfold RPlus.
  rewrite rmatch_cat, rmatch_set.
  destruct (span_spec not_quote s1) as (Hs1 & Hk & Hr).
  destruct s1 as [|x s1'].
  { reflexivity. }
  cbn [span] in *. destruct (not_quote x) eqn:Ex.
  2:{ reflexivity. }
  rewrite star_set_det.
  2:{ intros y s' cs' Hy. rewrite rmatch_cat, rmatch_lit.
      unfold not_quote in Hy. destruct (y =? DQ); [discriminate|reflexivity]. }
  destruct (span not_quote s1') as [k' r] eqn:Hspan. cbn [fst snd] in *.
  rewrite rmatch_cat, rmatch_lit.
  destruct r as [|q1 r1]; [reflexivity|].
  apply not_quote_false in Hr. subst q1. rewrite N.eqb_refl.
  rewrite rmatch_cat, rmatch_lit. cbn [andb].
  destruct r1 as [|c s2]; [reflexivity|].
  destruct (N.eqb_spec c 58) as [->|]; [|reflexivity].
  rewrite rmatch_cat, star_set_det.
  2:{ intros y s' cs' Hy. rewrite rmatch_cat, rmatch_lit.
      now rewrite (is_space_not_quote y Hy). }
  destruct (span_spec is_space s2) as (Hs2 & Hws & _).
  destruct (span is_space s2) as [ws s3]. cbn [fst snd] in *.
  rewrite rmatch_cat, rmatch_lit.
  destruct s3 as [|q2 s4]; [reflexivity|].
  destruct (N.eqb_spec q2 DQ) as [->|]; [|reflexivity].
  rewrite quoted_run_match.
  2:{ intros t cs' kk. now rewrite rmatch_cat, rmatch_lit. }
  destruct (span_spec not_quote s4) as (Hs4 & Hv & Hr4).
  destruct (span not_quote s4) as [v r4]. cbn [fst snd] in *.
  destruct r4 as [|q3 rest]; [reflexivity|].
  apply not_quote_false in Hr4. subst q3.
  rewrite Hs1, consumed_app.
  replace (DQ :: (x :: k') ++ DQ :: 58 :: s2)
    with (pair_text (x :: k') ws v ++ rest).
  - now rewrite consumed_app.
  - subst s2 s4. unfold pair_text, quoted. cbn [app].
    do 3 (rewrite <- ?app_assoc; cbn [app]). reflexivity.
Qed.

(** ** Flat objects of string fields *)

(** *** [re.sub], step by step *)

Lemma sub_from_skip (r : regex) (repl : match_obj -> text)
    (a before s : text) :
  sub_from r repl before (length a) (a ++ s)
  = sub_from r repl (rev a ++ before) 0 s.
Proof.
  revert before. induction a as [|c a IH]; intros before.
  - destruct s; reflexivity.
  - cbn [length app sub_from rev]. rewrite IH, <- app_assoc. reflexivity.
Qed.

Lemma sub_from_match (r : regex) (repl : match_obj -> text)
    (before g rest : text) (cs : caps) :
  g <> [] ->
  match_at r (g ++ rest) = Some (cs, rest) ->
  sub_from r repl before 0 (g ++ rest)
  = repl (MatchObj (rev before) cs rest)
    ++ sub_from r repl (rev g ++ before) 0 rest.
Proof.
  intros Hg H. destruct g as [|c g]; [contradiction|].
  cbn [app] in *. cbn [sub_from]. rewrite H. f_equal.
  replace (length (c :: g ++ rest) - length rest)%nat with (S (length g))
    by (cbn [length]; rewrite length_app; lia).
  rewrite sub_from_skip. cbn [rev]. now rewrite <- app_assoc.
Qed.

Lemma sub_from_nomatch (r : regex) (repl : match_obj -> text)
    (before s : text) (c : N) :
  match_at r (c :: s) = None ->
  sub_from r repl before 0 (c :: s) = c :: sub_from r repl (c :: before) 0 s.
Proof. intros H. cbn [sub_from]. now rewrite H. Qed.

(** *** Method 3 on a flat object *)

Lemma plain_field_inv (kv : text * text) :
  plain_field kv = true ->
  fst kv <> [] /\ forallb plain_char (fst kv) = true /\
  existsb is_newline (fst kv) = false /\ forallb plain_char (snd kv) = true.
Proof.
  unfold plain_field. intros H.
  apply andb_true_iff in H as [H Hv]. apply andb_true_iff in H as [H Hn].
  apply andb_true_iff in H as [Hne Hk].
  split; [|split; [exact Hk|split; [|exact Hv]]].
  - destruct (fst kv); [discriminate|discriminate].
  - now destruct (existsb is_newline (fst kv)).
Qed.

Lemma pair_field_at_complete (k ws v rest : text) :
  k <> [] -> forallb not_quote k = true -> forallb is_space ws = true ->
  forallb not_quote v = true ->
  pair_field_at (pair_text k ws v ++ rest) = Some (k, ws, v, rest).
Proof.
  intros Hne Hk Hws Hv. unfold pair_text, quoted.
  do 4 (rewrite <- ?app_assoc; cbn [app]).
  unfold pair_field_at. rewrite N.eqb_refl.
  rewrite span_app; [|exact Hk|reflexivity].
  destruct k as [|x k]; [contradiction|].
  change ((DQ =? DQ) && (58 =? 58)) with true. cbv iota.
  rewrite span_app; [|exact Hws|reflexivity].
  rewrite N.eqb_refl.
  rewrite span_app; [reflexivity|exact Hv|reflexivity].
Qed.

Lemma pair_field_at_inv (s k ws v rest : text) :
  pair_field_at s = Some (k, ws, v, rest) ->
  s = pair_text k ws v ++ rest /\ k <> [] /\
  forallb not_quote k = true /\ forallb is_space ws = true /\
  forallb not_quote v = true.
Proof.
  unfold pair_field_at. destruct s as [|q0 s1]; [discriminate|].
  destruct (N.eqb_spec q0 DQ) as [->|]; [|discriminate].
  destruct (span_spec not_quote s1) as (Hs1 & Hk & Hr).
  destruct (span not_quote s1) as [k0 r]. cbn [fst snd] in *.
  destruct k0 as [|x k0]; [discriminate|].
  destruct r as [|q1 [|c s2]]; try discriminate.
  destruct (N.eqb_spec q1 DQ) as [->|]; [|discriminate].
  destruct (N.eqb_spec c 58) as [->|]; [|discriminate]. cbn [andb].
  destruct (span_spec is_space s2) as (Hs2 & Hws & _).
  destruct (span is_space s2) as [ws0 s3]. cbn [fst snd] in *.
  destruct s3 as [|q2 s4]; [discriminate|].
  destruct (N.eqb_spec q2 DQ) as [->|]; [|discriminate].
  destruct (span_spec not_quote s4) as (Hs4 & Hv & Hr4).
  destruct (span not_quote s4) as [v0 r4]. cbn [fst snd] in *.
  destruct r4 as [|q3 rest0]; [discriminate|].
  apply not_quote_false in Hr4. subst q3.
  intros [= <- <- <- <-].
  split; [|split; [discriminate|split; [exact Hk|split; [exact Hws|exact Hv]]]].
  subst s1 s2 s4. unfold pair_text, quoted.
  do 4 (rewrite <- ?app_assoc; cbn [app]). reflexivity.
Qed.

(** The pattern of method 3 matches at the head of a text exactly when the
    text starts with a quoted key that is not empty, a colon, white space,
    and a quoted run of characters without quote; the match ends at the
    first quote behind the opening one of the value.  Key and value never
    hold a quote, and a newline in the value is matched as any other
    character. *)
Theorem pair_match_ends_at_first_quote (s rest : text) (cs : caps) :
  match_at pair_pattern s = Some (cs, rest) <->
  exists k ws v,
    s = pair_text k ws v ++ rest /\
    k <> [] /\
    forallb not_quote k = true /\
    forallb is_space ws = true /\
    forallb not_quote v = true /\
    cs = [(0%nat, pair_text k ws v); (2%nat, v); (1%nat, k)].
Proof.
  rewrite match_at_pair_pattern. split.
  - destruct (pair_field_at s) as [[[[k ws] v] r]|] eqn:E; [|discriminate].
    intros [= <- <-].
    apply pair_field_at_inv in E as (Hs & Hne & Hk & Hws & Hv).
    exists k, ws, v.
    split; [exact Hs|]. split; [exact Hne|]. split; [exact Hk|].
    split; [exact Hws|]. split; [exact Hv|reflexivity].
  - intros (k & ws & v & -> & Hne & Hk & Hws & Hv & ->).
    now rewrite pair_field_at_complete.
Qed.

Lemma pair_field_at_field (k v rest : text) :
  k <> [] -> forallb not_quote k = true -> forallb not_quote v = true ->
  pair_field_at (field (k, v) ++ rest) = Some (k, [32], v, rest).
Proof.
  intros Hne Hk Hv. unfold field, quoted. cbn [fst snd].
  replace ((DQ :: k ++ [DQ]) ++ txt ": " ++ DQ :: v ++ [DQ])
    with (DQ :: k ++ DQ :: 58 :: 32 :: DQ :: v ++ [DQ])
    by (cbn [app]; rewrite <- app_assoc; reflexivity).
  cbn [app]. rewrite <- !app_assoc. cbn [app]. rewrite <- !app_assoc.
  cbn [app]. unfold pair_field_at. rewrite N.eqb_refl.
  rewrite span_app; [|exact Hk|reflexivity].
  destruct k as [|x k]; [contradiction|].
  change ((DQ =? DQ) && (58 =? 58)) with true. cbv iota.
  change (span is_space (32 :: DQ :: v ++ DQ :: rest))
    with ([32], DQ :: v ++ DQ :: rest).
  cbv iota beta. rewrite N.eqb_refl.
  rewrite span_app; [reflexivity|exact Hv|reflexivity].
Qed.

Lemma fix_string_value_field (before k ws v rest g0 : text) :
  fix_string_value
    (MatchObj before [(0%nat, g0); (2%nat, v); (1%nat, k)] rest)
  = field (k, escape_newlines v).
Proof. reflexivity. Qed.

Lemma sub_from_field (before rest : text) (kv : text * text) :
  plain_field kv = true ->
  exists before',
    sub_from pair_pattern fix_string_value before 0 (field kv ++ rest)
    = field (escaped_field kv)
      ++ sub_from pair_pattern fix_string_value before' 0 rest.
Proof.
  intros H. destruct (plain_field_inv kv H) as (Hne & Hk & _ & Hv).
  destruct kv as [k v]. cbn [fst snd] in *.
  exists (rev (field (k, v)) ++ before).
  rewrite (sub_from_match pair_pattern fix_string_value before
             (field (k, v)) rest
             [(0%nat, pair_text k [32] v); (2%nat, v); (1%nat, k)]).
  - reflexivity.
  - unfold field, quoted. discriminate.
  - rewrite match_at_pair_pattern, pair_field_at_field; auto using plain_not_quote.
Qed.

Lemma sub_from_brace (before : text) :
  sub_from pair_pattern fix_string_value before 0 (txt "}") = txt "}".
Proof. reflexivity. Qed.

Lemma sub_from_comma (before s : text) :
  sub_from pair_pattern fix_string_value before 0 (txt ", " ++ s)
  = txt ", "
    ++ sub_from pair_pattern fix_string_value (32 :: 44 :: before) 0 s.
Proof.
  change (txt ", " ++ s) with (44 :: 32 :: s).
  rewrite sub_from_nomatch; [|reflexivity].
  rewrite sub_from_nomatch; [reflexivity|].
  now rewrite match_at_pair_pattern.
Qed.

Lemma sub_from_members (fs : list (text * text)) :
  forall f before,
    forallb plain_field (f :: fs) = true ->
    sub_from pair_pattern fix_string_value before 0
      (members f fs ++ txt "}")
    = members (escaped_field f) (map escaped_field fs) ++ txt "}".
Proof.
  induction fs as [|g fs IH]; intros f before H;
    cbn [forallb] in H; apply andb_true_iff in H as [Hf Hfs].
  - cbn [members map].
    destruct (sub_from_field before (txt "}") f Hf) as [b' ->].
    now rewrite sub_from_brace.
  - cbn [members map]. rewrite <- !app_assoc.
    destruct (sub_from_field before (txt ", " ++ members g fs ++ txt "}")
                f Hf) as [b' ->].
    rewrite sub_from_comma, IH; [|exact Hfs]. reflexivity.
Qed.

(** The text method 3 hands to the parser: every value escaped. *)
Lemma method3_fixed_flat_object (f : text * text) (fs : list (text * text)) :
  forallb plain_field (f :: fs) = true ->
  method3_fixed (flat_object f fs)
  = flat_object (escaped_field f) (map escaped_field fs).
Proof.
  intros H. unfold method3_fixed, re_sub, flat_object.
  change (txt "{" ++ members f fs ++ txt "}")
    with (123 :: members f fs ++ txt "}").
  rewrite sub_from_nomatch; [|now rewrite match_at_pair_pattern].
  now rewrite sub_from_members.
Qed.

(** *** The parse of a flat object *)

Lemma field_chars (k w R : text) :
  field (k, w) ++ R = DQ :: k ++ DQ :: 58 :: 32 :: DQ :: w ++ DQ :: R.
Proof.
  unfold field, quoted. cbn [fst snd app].
  do 4 (rewrite <- ?app_assoc; cbn [app]). reflexivity.
Qed.

Lemma scanstring_key (k R : text) :
  forallb plain_char k = true -> existsb is_newline k = false ->
  scanstring (k ++ DQ :: R) = Some (k, R).
Proof.
  intros Hk Hn. rewrite <- (escape_no_newline k Hn) at 1.
  now apply scanstring_escaped.
Qed.

(** One member: the key is read as it stands, the rest hangs on the scan
    of the value. *)
Lemma parse_members_field (n : nat) (acc : list (pyval * pyval))
    (k w R : text) :
  forallb plain_char k = true -> existsb is_newline k = false ->
  parse_members (S n) acc (field (k, w) ++ R)
  = match n with
    | O => None
    | S _ =>
      match scanstring (w ++ DQ :: R) with
      | None => None
      | Some (str, s4) =>
        match skip_ws s4 with
        | c5 :: s5 =>
          if c5 =? 125 then Some (PyDict (dict_set k (PyStr str) acc), s5)
          else if c5 =? 44
          then parse_members n (dict_set k (PyStr str) acc) (skip_ws s5)
          else None
        | [] => None
        end
      end
    end.
Proof.
  intros Hk Hn. rewrite field_chars, parse_members_S, N.eqb_refl.
  rewrite (scanstring_key k _ Hk Hn).
  change (skip_ws (58 :: 32 :: DQ :: w ++ DQ :: R))
    with (58 :: 32 :: DQ :: w ++ DQ :: R).
  cbv iota beta. rewrite N.eqb_refl.
  change (skip_ws (32 :: DQ :: w ++ DQ :: R)) with (DQ :: w ++ DQ :: R).
  destruct n as [|n]; [reflexivity|].
  rewrite scan_once_S, N.eqb_refl.
  destruct (scanstring (w ++ DQ :: R)) as [[str s4]|]; reflexivity.
Qed.

Lemma skip_ws_members (f : text * text) (fs : list (text * text)) (R : text) :
  skip_ws (32 :: members f fs ++ R) = members f fs ++ R.
Proof.
  destruct f as [k w].
  destruct fs as [|g fs]; cbn [members]; rewrite <- ?app_assoc;
    rewrite field_chars; reflexivity.
Qed.

Lemma members_head (f : text * text) (fs : list (text * text)) (R : text) :
  exists tl, members f fs ++ R = DQ :: tl.
Proof.
  destruct f as [k w].
  destruct fs as [|g fs]; cbn [members]; rewrite <- ?app_assoc;
    rewrite field_chars; eexists; reflexivity.
Qed.

(** With every value escaped the members parse to the record. *)
Lemma parse_members_escaped (fs : list (text * text)) :
  forall f acc n T,
    (S (length fs) < n)%nat ->
    forallb plain_field (f :: fs) = true ->
    parse_members n acc
      (members (escaped_field f) (map escaped_field fs) ++ 125 :: T)
    = Some (PyDict
              (fold_left
                 (fun acc kv => dict_set (fst kv) (PyStr (snd kv)) acc)
                 (f :: fs) acc), T).
Proof.
  induction fs as [|g fs IH]; intros f acc n T Hn H;
    cbn [forallb] in H; apply andb_true_iff in H as [Hf Hfs];
    destruct (plain_field_inv f Hf) as (_ & Hk & Hnl & Hv);
    destruct f as [k v]; cbn [fst snd] in *;
    destruct n as [|[|n]]; cbn [length] in Hn; try lia;
    unfold escaped_field at 1; cbn [fst snd map members].
  - rewrite (parse_members_field _ _ _ _ _ Hk Hnl).
    rewrite escape_newlines_chars, (scanstring_escaped v _ Hv).
    reflexivity.
  - rewrite <- !app_assoc.
    rewrite (parse_members_field _ _ _ _ _ Hk Hnl).
    rewrite escape_newlines_chars, (scanstring_escaped v _ Hv).
    change (skip_ws (txt ", " ++ members (escaped_field g)
                                (map escaped_field fs) ++ 125 :: T))
      with (44 :: 32 :: members (escaped_field g) (map escaped_field fs)
            ++ 125 :: T).
    cbv iota beta.
    change (44 =? 125) with false. change (44 =? 44) with true. cbv iota.
    rewrite skip_ws_members.
    rewrite IH; [reflexivity|lia|exact Hfs].
Qed.

Lemma json_loads_escaped_object (f : text * text) (fs : list (text * text)) :
  forallb plain_field (f :: fs) = true ->
  json_loads (flat_object (escaped_field f) (map escaped_field fs))
  = Some (PyDict (record_of (f :: fs))).
Proof.
  intros H.
  assert (E : flat_object (escaped_field f) (map escaped_field fs)
              = 123 :: members (escaped_field f) (map escaped_field fs)
                ++ 125 :: []) by reflexivity.
  apply (json_loads_fuel (S (S (S (length fs)))) _ []).
  - rewrite E. exact I.
  - rewrite E.
    change (skip_ws (123 :: members (escaped_field f) (map escaped_field fs)
                     ++ [125]))
      with (123 :: members (escaped_field f) (map escaped_field fs)
            ++ [125]).
    rewrite scan_once_S.
    change (123 =? DQ) with false. change (123 =? 123) with true. cbv iota.
    replace (skip_ws (members (escaped_field f) (map escaped_field fs)
                      ++ [125]))
      with (members (escaped_field f) (map escaped_field fs) ++ [125])
      by (symmetry; apply (skip_ws_members _ _ [125])).
    destruct (members_head (escaped_field f) (map escaped_field fs) [125])
      as [tl Etl].
    rewrite Etl. change (DQ =? 125) with false. cbv iota.
    rewrite <- Etl.
    rewrite parse_members_escaped; [reflexivity|lia|exact H].
  - reflexivity.
Qed.

(** Method 3 decodes every flat object of plain string fields, whatever
    newlines and carriage returns the values hold. *)
Lemma method3_flat_object (f : text * text) (fs : list (text * text)) :
  forallb plain_field (f :: fs) = true ->
  method3 (flat_object f fs) = Some (PyDict (record_of (f :: fs))).
Proof.
  intros H. unfold method3.
  rewrite (method3_fixed_flat_object f fs H).
  now apply json_loads_escaped_object.
Qed.

(** *** A flat object with some of its values escaped *)

Lemma scanstring_variant (kv' kv : text * text) (R : text) :
  variant kv' kv -> forallb plain_char (snd kv) = true ->
  scanstring (snd kv' ++ DQ :: R) = None \/
  scanstring (snd kv' ++ DQ :: R) = Some (snd kv, R).
Proof.
  intros [->| ->] Hv.
  - destruct (existsb is_newline (snd kv)) eqn:Hn.
    + left. now apply scanstring_literal_newline.
    + right. rewrite <- (escape_no_newline _ Hn) at 1.
      now apply scanstring_escaped.
  - right. cbn [escaped_field snd]. rewrite escape_newlines_chars.
    now apply scanstring_escaped.
Qed.

Lemma variant_key (kv' kv : text * text) : variant kv' kv -> fst kv' = fst kv.
Proof. now intros [->| ->]. Qed.

(** Whatever the fuel, the members parse to the record or not at all. *)
Lemma parse_members_variant (fs : list (text * text)) :
  forall fs' f f' acc n T,
    Forall2 variant fs' fs -> variant f' f ->
    forallb plain_field (f :: fs) = true ->
    parse_members n acc (members f' fs' ++ 125 :: T) = None \/
    parse_members n acc (members f' fs' ++ 125 :: T)
    = Some (PyDict
              (fold_left
                 (fun acc kv => dict_set (fst kv) (PyStr (snd kv)) acc)
                 (f :: fs) acc), T).
Proof.
  induction fs as [|g fs IH]; intros fs' f f' acc n T HF Hvar H;
    cbn [forallb] in H; apply andb_true_iff in H as [Hf Hfs];
    destruct (plain_field_inv f Hf) as (_ & Hk & Hnl & Hv);
    pose proof (variant_key f' f Hvar) as Ek;
    inversion HF as [|g' g0 fs0' fs0 Hg HF']; subst;
    (destruct n as [|[|n]]; [left; reflexivity| |]);
    destruct f' as [k' w']; cbn [fst] in Ek; subst k'; cbn [members].
  - left. now rewrite (parse_members_field _ _ _ _ _ Hk Hnl).
  - rewrite (parse_members_field _ _ _ _ _ Hk Hnl).
    destruct (scanstring_variant _ _ (125 :: T) Hvar Hv) as [E|E];
      cbn [snd] in E; rewrite E; [now left|right; reflexivity].
  - left. rewrite <- !app_assoc.
    now rewrite (parse_members_field _ _ _ _ _ Hk Hnl).
  - rewrite <- !app_assoc.
    rewrite (parse_members_field _ _ _ _ _ Hk Hnl).
    destruct (scanstring_variant _ _
                (txt ", " ++ members g' fs0' ++ 125 :: T) Hvar Hv) as [E|E];
      cbn [snd] in E; rewrite E; [now left|].
    change (skip_ws (txt ", " ++ members g' fs0' ++ 125 :: T))
      with (44 :: 32 :: members g' fs0' ++ 125 :: T).
    cbv iota beta.
    change (44 =? 125) with false. change (44 =? 44) with true. cbv iota.
    rewrite skip_ws_members.
    apply (IH fs0' g g'); [exact HF'|exact Hg|exact Hfs].
Qed.

Lemma json_loads_variant (f f' : text * text) (fs fs' : list (text * text)) :
  Forall2 variant fs' fs -> variant f' f ->
  forallb plain_field (f :: fs) = true ->
  json_loads (flat_object f' fs') = None \/
  json_loads (flat_object f' fs') = Some (PyDict (record_of (f :: fs))).
Proof.
  intros HF Hvar H.
  assert (E : flat_object f' fs' = 123 :: members f' fs' ++ 125 :: [])
    by reflexivity.
  rewrite E. unfold json_loads.
  change (skip_ws (123 :: members f' fs' ++ [125]))
    with (123 :: members f' fs' ++ [125]).
  rewrite scan_once_S.
  change (123 =? DQ) with false. change (123 =? 123) with true. cbv iota.
  replace (skip_ws (members f' fs' ++ [125]))
    with (members f' fs' ++ [125])
    by (symmetry; apply (skip_ws_members _ _ [125])).
  destruct (members_head f' fs' [125]) as [tl Etl].
  rewrite Etl. change (DQ =? 125) with false. cbv iota.
  rewrite <- Etl.
  destruct (parse_members_variant fs fs' f f' []
              (length (123 :: members f' fs' ++ [125])) [] HF Hvar H)
    as [E1|E1]; rewrite E1; [now left|right; reflexivity].
Qed.

(** *** Method 2 on a flat object *)

Lemma sql_key_chars : sql_key = [DQ; 115; 113; 108; DQ; 58].
Proof. reflexivity. Qed.

Lemma starts_with_app_false (p q s : text) :
  starts_with p s = false -> starts_with (p ++ q) s = false.
Proof.
  unfold starts_with. revert s. induction p as [|x p IH]; intros s;
    [discriminate|].
  cbn [app strip_prefix]. destruct s as [|y s]; [reflexivity|].
  destruct (x =? y); [apply IH|reflexivity].
Qed.

Lemma no_key_in_app (a b R : text) :
  no_key_in (a ++ b) R = no_key_in a (b ++ R) && no_key_in b R.
Proof.
  induction a as [|x a IH]; [reflexivity|].
  cbn [app no_key_in]. now rewrite IH, <- app_assoc, andb_assoc.
Qed.

Lemma no_key_in_run (a R : text) :
  forallb not_quote a = true -> no_key_in a R = true.
Proof.
  induction a as [|x a IH]; [reflexivity|].
  cbn [forallb no_key_in app]. intros H. apply andb_true_iff in H as [Hx Ha].
  rewrite (IH Ha), andb_true_r.
  unfold starts_with. rewrite sql_key_chars. cbn [strip_prefix].
  unfold not_quote in Hx. rewrite N.eqb_sym.
  now destruct (x =? DQ).
Qed.

(** A quoted run that is not followed by a colon is not the key. *)
Lemma quoted_not_key (w R : text) (c : N) :
  forallb not_quote w = true -> c <> 58 ->
  starts_with sql_key (DQ :: w ++ DQ :: c :: R) = false.
Proof.
  intros Hw Hc. unfold starts_with. rewrite sql_key_chars.
  cbn [strip_prefix]. rewrite N.eqb_refl.
  destruct w as [|x1 w]; [reflexivity|]. cbn [app].
  destruct (115 =? x1); [|reflexivity].
  destruct w as [|x2 w]; [reflexivity|]. cbn [app].
  destruct (113 =? x2); [|reflexivity].
  destruct w as [|x3 w]; [reflexivity|]. cbn [app].
  destruct (108 =? x3); [|reflexivity].
  destruct w as [|x4 w]; cbn [app].
  - rewrite N.eqb_refl. destruct (N.eqb_spec 58 c); [congruence|reflexivity].
  - cbn [forallb] in Hw. rewrite !andb_true_iff in Hw.
    destruct Hw as (_ & _ & _ & Hx & _). unfold not_quote in Hx.
    rewrite N.eqb_sym. now destruct (x4 =? DQ).
Qed.

(** Behind its opening quote a field holds no position where the key of
    the [sql] field starts, when a comma or a brace follows the field. *)
Lemma field_tail_no_key (k w R : text) (c : N) :
  forallb not_quote k = true -> forallb not_quote w = true ->
  c <> 58 -> c <> 115 ->
  no_key_in (k ++ DQ :: 58 :: 32 :: DQ :: w ++ [DQ]) (c :: R) = true.
Proof.
  intros Hk Hw H58 H115.
  rewrite no_key_in_app, (no_key_in_run k _ Hk). cbn [andb].
  change (DQ :: 58 :: 32 :: DQ :: w ++ [DQ])
    with ([DQ; 58; 32] ++ (DQ :: w) ++ [DQ]).
  rewrite no_key_in_app.
  replace (no_key_in [DQ; 58; 32] (((DQ :: w) ++ [DQ]) ++ c :: R))
    with true by reflexivity.
  cbn [andb]. rewrite no_key_in_app.
  apply andb_true_iff. split.
  - cbn [no_key_in app].
    rewrite (quoted_not_key w R c Hw H58). cbn [negb andb].
    now apply no_key_in_run.
  - cbn [no_key_in app]. rewrite andb_true_r.
    unfold starts_with. rewrite sql_key_chars. cbn [strip_prefix].
    rewrite N.eqb_refl.
    destruct (N.eqb_spec 115 c); [congruence|reflexivity].
Qed.

Lemma replace_scan_no_key (X new a R : text) :
  no_key_in a R = true ->
  replace_scan (sql_key ++ X) new 0 (a ++ R)
  = a ++ replace_scan (sql_key ++ X) new 0 R.
Proof.
  induction a as [|x a IH]; [reflexivity|].
  cbn [no_key_in]. intros H. apply andb_true_iff in H as [H1 H2].
  apply negb_true_iff in H1.
  cbn [app replace_scan].
  change (x :: a ++ R) with ((x :: a) ++ R).
  rewrite (starts_with_app_false sql_key X _ H1).
  cbn [app]. now rewrite IH.
Qed.

(** Two runs without quote that end at a quote. *)
Lemma quote_free_split (a b X Y : text) :
  forallb not_quote a = true -> forallb not_quote b = true ->
  a ++ DQ :: X = b ++ DQ :: Y -> a = b /\ X = Y.
Proof.
  revert b. induction a as [|x a IH]; intros [|y b] Ha Hb E;
    cbn [app forallb] in *.
  - now inversion E.
  - inversion E as [[Ey Et]]. subst y. discriminate.
  - inversion E as [[Ex Et]]. subst x. discriminate.
  - apply andb_true_iff in Ha as [_ Ha]. apply andb_true_iff in Hb as [_ Hb].
    inversion E as [[Ex Et]]. destruct (IH b Ha Hb Et) as [-> ->].
    now split.
Qed.

Lemma space_not_quote (ws : text) :
  forallb is_space ws = true -> forallb not_quote ws = true.
Proof.
  induction ws as [|x ws IH]; [reflexivity|]. cbn [forallb].
  intros H. apply andb_true_iff in H as [Hx Hws]. rewrite (IH Hws).
  unfold not_quote. now rewrite (is_space_not_quote x Hx).
Qed.

(** The matched text of the [sql] field at the head of a field: the field
    is the matched text. *)
Lemma starts_with_field (ws c k w R : text) :
  forallb is_space ws = true -> forallb not_quote c = true ->
  forallb not_quote k = true -> forallb not_quote w = true ->
  starts_with (sql_key ++ ws ++ quoted c) (field (k, w) ++ R) = true ->
  k = txt "sql" /\ ws = [32] /\ w = c.
Proof.
  intros Hws Hc Hk Hw H. apply starts_with_inv in H as [r E].
  rewrite field_chars, sql_key_chars in E. unfold quoted in E.
  cbn [app] in E. rewrite <- !app_assoc in E. cbn [app] in E.
  rewrite <- !app_assoc in E. cbn [app] in E.
  inversion E as [E1]. clear E.
  change (115 :: 113 :: 108 :: DQ :: 58 :: ws ++ DQ :: c ++ DQ :: r)
    with ([115; 113; 108] ++ DQ :: 58 :: ws ++ DQ :: c ++ DQ :: r) in E1.
  apply quote_free_split in E1 as [-> E2]; [|exact Hk|reflexivity].
  inversion E2 as [E3]. clear E2.
  change (32 :: DQ :: w ++ DQ :: R) with ([32] ++ DQ :: w ++ DQ :: R) in E3.
  apply quote_free_split in E3 as [<- E4];
    [|reflexivity|now apply space_not_quote].
  apply quote_free_split in E4 as [-> _]; auto.
Qed.

(** The replacement of method 2 on one field: the field stays or takes its
    escaped form, and the scan goes on behind it. *)
Lemma replace_scan_field (ws c R : text) (x : N) (kv : text * text) :
  forallb is_space ws = true -> forallb not_quote c = true ->
  plain_field kv = true -> x <> 58 -> x <> 115 ->
  exists kv',
    variant kv' kv /\
    replace_scan (sql_key ++ ws ++ quoted c)
      (sql_field (escape_newlines c)) 0 (field kv ++ x :: R)
    = field kv'
      ++ replace_scan (sql_key ++ ws ++ quoted c)
           (sql_field (escape_newlines c)) 0 (x :: R).
Proof.
  intros Hws Hc H H58 H115.
  destruct (plain_field_inv kv H) as (_ & Hk & _ & Hv).
  apply plain_not_quote in Hk. apply plain_not_quote in Hv.
  destruct kv as [k w]. cbn [fst snd] in *.
  destruct (starts_with (sql_key ++ ws ++ quoted c) (field (k, w) ++ x :: R))
    eqn:E.
  - destruct (starts_with_field ws c k w (x :: R) Hws Hc Hk Hv E)
      as (-> & -> & ->).
    exists (escaped_field (txt "sql", c)). split; [now right|].
    change (sql_key ++ [32] ++ quoted c) with (field (txt "sql", c)) in *.
    change (sql_field (escape_newlines c))
      with (field (escaped_field (txt "sql", c))).
    remember (field (escaped_field (txt "sql", c))) as new.
    remember (field (txt "sql", c)) as old.
    assert (Hold : exists tl, old = DQ :: tl).
    { subst old. eexists. unfold field, quoted. reflexivity. }
    destruct Hold as [tl Etl].
    remember (replace_scan old new 0 (x :: R)) as behind eqn:Eb.
    rewrite Etl in *.
    cbn [app replace_scan]. cbn [app] in E. rewrite E.
    cbn [length Nat.sub]. rewrite Nat.sub_0_r.
    now rewrite replace_scan_skip, Eb.
  - exists (k, w). split; [now left|].
    remember (replace_scan (sql_key ++ ws ++ quoted c)
                (sql_field (escape_newlines c)) 0 (x :: R)) as behind eqn:Eb.
    rewrite !field_chars in *.
    cbn [replace_scan]. rewrite E.
    replace (k ++ DQ :: 58 :: 32 :: DQ :: w ++ DQ :: x :: R)
      with ((k ++ DQ :: 58 :: 32 :: DQ :: w ++ [DQ]) ++ x :: R)
      by (rewrite <- app_assoc; cbn [app]; rewrite <- app_assoc; reflexivity).
    rewrite replace_scan_no_key; [|now apply field_tail_no_key].
    rewrite <- Eb, <- app_assoc. cbn [app]. rewrite <- app_assoc. reflexivity.
Qed.

Lemma replace_scan_members (ws c : text) (fs : list (text * text)) :
  forallb is_space ws = true -> forallb not_quote c = true ->
  forall f,
    forallb plain_field (f :: fs) = true ->
    exists f' fs',
      variant f' f /\ Forall2 variant fs' fs /\
      replace_scan (sql_key ++ ws ++ quoted c)
        (sql_field (escape_newlines c)) 0 (members f fs ++ txt "}")
      = members f' fs' ++ txt "}".
Proof.
  intros Hws Hc. induction fs as [|g fs IH]; intros f H;
    cbn [forallb] in H; apply andb_true_iff in H as [Hf Hfs].
  - destruct (replace_scan_field ws c [] 125 f Hws Hc Hf) as (f' & Hv & E);
      [discriminate|discriminate|].
    exists f', []. split; [exact Hv|]. split; [constructor|].
    cbn [members]. change (txt "}") with [125]. rewrite E. reflexivity.
  - destruct (IH g Hfs) as (g' & fs' & Hg & HF & E').
    destruct (replace_scan_field ws c (32 :: members g fs ++ txt "}") 44 f
                Hws Hc Hf) as (f' & Hv & E); [discriminate|discriminate|].
    exists f', (g' :: fs'). split; [exact Hv|]. split; [now constructor|].
    cbn [members]. rewrite <- !app_assoc.
    change (txt ", " ++ members g fs ++ txt "}")
      with (44 :: 32 :: members g fs ++ txt "}").
    rewrite E.
    change (44 :: 32 :: members g fs ++ txt "}")
      with ([44; 32] ++ members g fs ++ txt "}").
    rewrite replace_scan_no_key; [|reflexivity].
    rewrite E'. reflexivity.
Qed.

Lemma str_replace_key (s X new : text) :
  str_replace s (sql_key ++ X) new = replace_scan (sql_key ++ X) new 0 s.
Proof. reflexivity. Qed.

(** Method 2 on a flat object fails or yields the record. *)
Lemma method2_flat_object (f : text * text) (fs : list (text * text)) :
  forallb plain_field (f :: fs) = true ->
  method2 (flat_object f fs) = None \/
  method2 (flat_object f fs) = Some (PyDict (record_of (f :: fs))).
Proof.
  intros H. unfold method2, method2_fixed.
  destruct (re_search sql_pattern (flat_object f fs)) as [m|] eqn:Em;
    [|now left].
  destruct (re_search_sql_pattern _ m Em) as (ws & Hws & Hc & Hg0 & _).
  cbv zeta. rewrite Hg0.
  destruct (replace_scan_members ws (group 1 m) fs Hws Hc f H)
    as (f' & fs' & Hv & HF & E).
  replace (str_replace (flat_object f fs)
             (sql_key ++ ws ++ quoted (group 1 m))
             (sql_field (escape_newlines (group 1 m))))
    with (flat_object f' fs').
  - now apply json_loads_variant.
  - rewrite str_replace_key. unfold flat_object.
    change (txt "{" ++ members f fs ++ txt "}")
      with ([123] ++ members f fs ++ txt "}").
    rewrite replace_scan_no_key; [|reflexivity].
    now rewrite E.
Qed.

Lemma variant_refl (fs : list (text * text)) : Forall2 variant fs fs.
Proof. induction fs; constructor; [now left|assumption]. Qed.

(** The decoder on a flat object of plain string fields. *)
Lemma flat_object_methods (literal_eval : text -> option pyval)
    (f : text * text) (fs : list (text * text)) :
  forallb plain_field (f :: fs) = true ->
  fix_json_format literal_eval (flat_object f fs)
  = Return (PyDict (record_of (f :: fs))).
Proof.
  intros H. unfold fix_json_format.
  destruct (json_loads_variant f f fs fs (variant_refl fs) (or_introl eq_refl) H)
    as [E1|E1]; unfold method1; rewrite E1; [|reflexivity].
  destruct (method2_flat_object f fs H) as [E2|E2]; rewrite E2; [|reflexivity].
  now rewrite (method3_flat_object f fs H).
Qed.

(** Flat objects of string fields: keys that are not empty, keys and
    values without quote, backslash and control character, the values with
    whatever newlines and carriage returns.  The decoder returns the
    record of the fields, a repeated key with its last value.  Method 3
    alone does as much: the text it hands to the parser is the object with
    the newlines of every value escaped. *)
Theorem flat_object_decoded (literal_eval : text -> option pyval)
    (f : text * text) (fs : list (text * text)) :
  forallb plain_field (f :: fs) = true ->
  fix_json_format literal_eval (flat_object f fs)
  = Return (PyDict (record_of (f :: fs))) /\
  method3_fixed (flat_object f fs)
  = flat_object (escaped_field f) (map escaped_field fs) /\
  method3 (flat_object f fs) = Some (PyDict (record_of (f :: fs))).
Proof.
  intros H. split; [|split].
  - now apply flat_object_methods.
  - now apply method3_fixed_flat_object.
  - now apply method3_flat_object.
Qed.

Lemma flat_object_decoded_witness :
  fix_json_format literal_eval_sample
    (flat_object (txt "name", txt "a" ++ [LF] ++ txt "b")
       [(txt "sql", txt "SELECT" ++ [CR; LF] ++ txt "1")])
  = Return
      (PyDict
         (record_of [(txt "name", txt "a" ++ [LF] ++ txt "b");
                     (txt "sql", txt "SELECT" ++ [CR; LF] ++ txt "1")])) /\
  method3_fixed
    (flat_object (txt "name", txt "a" ++ [LF] ++ txt "b")
       [(txt "sql", txt "SELECT" ++ [CR; LF] ++ txt "1")])
  = flat_object (escaped_field (txt "name", txt "a" ++ [LF] ++ txt "b"))
      (map escaped_field [(txt "sql", txt "SELECT" ++ [CR; LF] ++ txt "1")]) /\
  method3
    (flat_object (txt "name", txt "a" ++ [LF] ++ txt "b")
       [(txt "sql", txt "SELECT" ++ [CR; LF] ++ txt "1")])
  = Some
      (PyDict
         (record_of [(txt "name", txt "a" ++ [LF] ++ txt "b");
                     (txt "sql", txt "SELECT" ++ [CR; LF] ++ txt "1")])).
Proof.
  apply flat_object_decoded. reflexivity.
Defined.

(** *** From a flat object to the store *)





Section FlatRequest.

Variable literal_eval : text -> option pyval.
Variable read_sql_query : pyval -> outcome dataframe.
Variable timestamp : text.


End FlatRequest.

